(** * RiskAdjustment.py: a shallow embedding and its verified properties

    The module computes Hierarchical Condition Categories for recipients
    from diagnosis records ([generate_hccs]) and builds the reference
    tables it reads from regulatory text files ([extract_hierachy_rules],
    [extract_cc_table], [format_crosswaks]).

    The pandas operations the module calls are embedded as functions on two
    table types: [frame], a table with named columns as read from or written
    to a CSV file, and [pivot], the recipient-by-CC table that
    [groupby(...).size().unstack()] builds.  Python exceptions are the
    [Raise] results of a small error monad. *)

From Stdlib Require Import ZArith String Ascii List Bool Lia.
Import ListNotations.
Open Scope string_scope.
Open Scope list_scope.
Open Scope Z_scope.

Set Implicit Arguments.

(** ** Values, exceptions *)

(** A cell of a CSV-backed table: an integer, a string, a date
    (datetime64 truncated to its calendar day) or the missing value. *)
Inductive value : Type :=
| VInt (z : Z)
| VStr (s : string)
| VDate (y m d : Z)
| VNaN.

Definition value_eqb (a b : value) : bool :=
  match a, b with
  | VInt x, VInt y => Z.eqb x y
  | VStr x, VStr y => String.eqb x y
  | VDate y1 m1 d1, VDate y2 m2 d2 => Z.eqb y1 y2 && Z.eqb m1 m2 && Z.eqb d1 d2
  | VNaN, VNaN => true
  | _, _ => false
  end.

Definition notnull (v : value) : bool :=
  match v with VNaN => false | _ => true end.

(** The order [groupby] sorts its keys with.  Keys of one kind are compared
    as Python compares them; the order between kinds only makes the
    comparison total. *)
Definition value_leb (a b : value) : bool :=
  match a, b with
  | VInt x, VInt y => Z.leb x y
  | VInt _, _ => true
  | VStr _, VInt _ => false
  | VStr x, VStr y => String.leb x y
  | VStr _, _ => true
  | VDate _ _ _, (VInt _ | VStr _) => false
  | VDate y1 m1 d1, VDate y2 m2 d2 =>
      Z.ltb y1 y2 || (Z.eqb y1 y2 && (Z.ltb m1 m2 || (Z.eqb m1 m2 && Z.leb d1 d2)))
  | VDate _ _ _, VNaN => true
  | VNaN, VNaN => true
  | VNaN, _ => false
  end.

Inductive exn : Type :=
| KeyError (key : value)
| AttributeError (name : string)
| ValueError (msg : string)
| IndexError
| UnboundLocalError (name : string)
| FileNotFoundError (path : string).

Inductive result (A : Type) : Type :=
| Ok (a : A)
| Raise (e : exn).

Arguments Ok {A} a.
Arguments Raise {A} e.

Definition bind {A B : Type} (r : result A) (k : A -> result B) : result B :=
  match r with
  | Ok a => k a
  | Raise e => Raise e
  end.

Notation "x <- c ;; k" := (bind c (fun x => k))
  (at level 61, c at next level, right associativity).

(** ** Strings *)

Fixpoint contains (needle hay : string) : bool :=
  String.prefix needle hay
  || match hay with
     | EmptyString => false
     | String _ hay' => contains needle hay'
     end.

(** ** Frames: tables with named columns *)

Record frame : Type := Frame {
  fcols : list string;
  frows : list (list value)
}.

Definition has_col (name : string) (cols : list string) : bool :=
  existsb (String.eqb name) cols.

(** The cell of [row] under the first column called [name]. *)
Fixpoint cell_of (cols : list string) (row : list value) (name : string) : value :=
  match cols, row with
  | c :: cols', v :: row' => if String.eqb c name then v else cell_of cols' row' name
  | _, _ => VNaN
  end.

(** [df[name]]: the column as a list, [KeyError] when there is none. *)
Definition getitem (df : frame) (name : string) : result (list value) :=
  if has_col name (fcols df)
  then Ok (map (fun row => cell_of (fcols df) row name) (frows df))
  else Raise (KeyError (VStr name)).

(** [df.name]: attribute access to a column. *)
Definition getattr (df : frame) (name : string) : result (list value) :=
  if has_col name (fcols df)
  then Ok (map (fun row => cell_of (fcols df) row name) (frows df))
  else Raise (AttributeError name).

Fixpoint replace_cell (cols : list string) (row : list value) (name : string)
    (v : value) : list value :=
  match cols, row with
  | c :: cols', x :: row' =>
      (if String.eqb c name then v else x) :: replace_cell cols' row' name v
  | _, _ => row
  end.

Fixpoint zip_with {A B C : Type} (f : A -> B -> C) (xs : list A) (ys : list B) : list C :=
  match xs, ys with
  | x :: xs', y :: ys' => f x y :: zip_with f xs' ys'
  | _, _ => []
  end.

(** [df[name] = series]: overwrite the column when it exists, append it as
    the last column otherwise.  The frame itself is updated. *)
Definition setitem (df : frame) (name : string) (series : list value) : frame :=
  if has_col name (fcols df)
  then Frame (fcols df)
             (zip_with (fun row v => replace_cell (fcols df) row name v) (frows df) series)
  else Frame (fcols df ++ [name])
             (zip_with (fun row v => row ++ [v]) (frows df) series).

(** [series.dt.year]. *)
Definition dt_year_cell (v : value) : result value :=
  match v with
  | VDate y _ _ => Ok (VInt y)
  | VNaN => Ok VNaN
  | _ => Raise (AttributeError "dt")
  end.

Fixpoint mapM {A B : Type} (f : A -> result B) (xs : list A) : result (list B) :=
  match xs with
  | [] => Ok []
  | x :: xs' => y <- f x ;; ys <- mapM f xs' ;; Ok (y :: ys)
  end.

Definition dt_year (series : list value) : result (list value) :=
  mapM dt_year_cell series.

(** [frame.drop(columns=names)]. *)
Fixpoint drop_cells (cols : list string) (row : list value) (names : list string)
    : list value :=
  match cols, row with
  | c :: cols', v :: row' =>
      if has_col c names then drop_cells cols' row' names
      else v :: drop_cells cols' row' names
  | _, _ => []
  end.

Definition drop_columns (df : frame) (names : list string) : result frame :=
  match filter (fun n => negb (has_col n (fcols df))) names with
  | [] => Ok (Frame (filter (fun c => negb (has_col c names)) (fcols df))
                    (map (fun row => drop_cells (fcols df) row names) (frows df)))
  | n :: _ => Raise (KeyError (VStr n))
  end.

(** [pd.concat(frames)]: the columns are those of the frames in order of
    first appearance, every row is realigned on them. *)
Fixpoint union_cols (acc : list string) (cols : list string) : list string :=
  match cols with
  | [] => acc
  | c :: cols' => union_cols (if has_col c acc then acc else acc ++ [c]) cols'
  end.

Definition realign (cols : list string) (df : frame) : list (list value) :=
  map (fun row => map (cell_of (fcols df) row) cols) (frows df).

Definition concat_frames (lst : list frame) : result frame :=
  match lst with
  | [] => Raise (ValueError "No objects to concatenate")
  | _ =>
      let cols := fold_left union_cols (map fcols lst) [] in
      Ok (Frame cols (flat_map (realign cols) lst))
  end.

(** [left.merge(right, on=keys, how='left')]. *)
Definition keys_of (cols : list string) (row : list value) (keys : list string)
    : list value :=
  map (cell_of cols row) keys.

Fixpoint values_eqb (xs ys : list value) : bool :=
  match xs, ys with
  | [], [] => true
  | x :: xs', y :: ys' => value_eqb x y && values_eqb xs' ys'
  | _, _ => false
  end.

Definition suffix_overlap (keys other : list string) (sfx : string) (c : string)
    : string :=
  if negb (has_col c keys) && has_col c other then (c ++ sfx)%string else c.

(** The rows of [right] whose key cells equal those of the row [lrow] of
    [left]. *)
Definition matching_rows (left right : frame) (keys : list string) (lrow : list value)
    : list (list value) :=
  filter (fun rrow => values_eqb (keys_of (fcols left) lrow keys)
                                 (keys_of (fcols right) rrow keys))
         (frows right).

(** A row of [left] is joined with each of its matching rows, in their
    order, or kept once with missing values when it has none. *)
Definition joined_rows (left right : frame) (keys : list string) (lrow : list value)
    : list (list value) :=
  match matching_rows left right keys lrow with
  | [] => [lrow ++ map (fun _ => VNaN)
                       (filter (fun c => negb (has_col c keys)) (fcols right))]
  | matches => map (fun rrow => lrow ++ drop_cells (fcols right) rrow keys) matches
  end.

Definition merge_left (left right : frame) (keys : list string) : result frame :=
  match filter (fun k => negb (has_col k (fcols right) && has_col k (fcols left))) keys with
  | k :: _ => Raise (KeyError (VStr k))
  | [] =>
      let rest := filter (fun c => negb (has_col c keys)) (fcols right) in
      let cols := map (suffix_overlap keys rest "_x") (fcols left)
                  ++ map (suffix_overlap keys (fcols left) "_y") rest in
      Ok (Frame cols (flat_map (joined_rows left right keys) (frows left)))
  end.

(** [frame[frame.name.notnull()]]. *)
Definition filter_notnull (df : frame) (name : string) : result frame :=
  _ <- getattr df name ;;
  Ok (Frame (fcols df)
            (filter (fun row => notnull (cell_of (fcols df) row name)) (frows df))).

(** ** Pivots: the recipient-by-CC table

    A pivot is held the way pandas holds it: an index of row labels and a
    list of labelled columns, each column carrying one cell per row. *)

Record pivot (A : Type) : Type := Pivot {
  pindex : list value;
  pcolumns : list (value * list A)
}.

Definition plabels {A : Type} (m : pivot A) : list value := map fst (pcolumns m).

(** Sorted list of the distinct keys, as [groupby] lists its groups. *)
Fixpoint insert_key (k : value) (ks : list value) : list value :=
  match ks with
  | [] => [k]
  | k' :: ks' =>
      if value_eqb k k' then ks
      else if value_leb k k' then k :: ks
      else k' :: insert_key k ks'
  end.

Definition sorted_keys (ks : list value) : list value :=
  fold_right insert_key [] ks.

(** [frame.groupby([by1, by2]).size()]: the number of rows of each
    non-empty group; rows with a missing key belong to no group. *)
Definition group_rows (df : frame) (by1 by2 : string) : result (list (value * value)) :=
  k1 <- getitem df by1 ;;
  k2 <- getitem df by2 ;;
  Ok (filter (fun p => notnull (fst p) && notnull (snd p)) (combine k1 k2)).

Definition group_size (groups : list (value * value)) (r c : value) : Z :=
  Z.of_nat (List.length
    (filter (fun p => value_eqb (fst p) r && value_eqb (snd p) c) groups)).

(** [.unstack(fill_value=0)]: one row per first key, one column per second
    key, both sorted; a pair that is no group gets the fill value, which is
    the size [group_size] gives it. *)
Definition unstack (groups : list (value * value)) : pivot Z :=
  let index := sorted_keys (map fst groups) in
  Pivot index
        (map (fun c => (c, map (fun r => group_size groups r c) index))
             (sorted_keys (map snd groups))).

Fixpoint find_column {A : Type} (l : value) (cols : list (value * list A))
    : option (list A) :=
  match cols with
  | [] => None
  | (l', data) :: cols' => if value_eqb l' l then Some data else find_column l cols'
  end.

(** [.reindex(labels, axis=1, fill_value=fill)]. *)
Definition reindex_columns {A : Type} (m : pivot A) (labels : list value) (fill : A)
    : pivot A :=
  Pivot (pindex m)
        (map (fun l => (l, match find_column l (pcolumns m) with
                           | Some data => data
                           | None => map (fun _ => fill) (pindex m)
                           end))
             labels).

(** A cell of the boolean matrix.  [None] is the NaN that setting with
    enlargement leaves in the rows it does not assign. *)
Definition cell : Type := option bool.
Definition matrix : Type := pivot cell.

(** [.astype(bool)]. *)
Definition astype_bool (m : pivot Z) : matrix :=
  Pivot (pindex m)
        (map (fun col => (fst col, map (fun n => Some (negb (Z.eqb n 0))) (snd col)))
             (pcolumns m)).

(** *** The hierarchy step

    [merged.loc[merged[row.cc] == True, row.to_zero] = False] *)

Definition columns_named {A : Type} (l : value) (m : pivot A) : list (list A) :=
  map snd (filter (fun col => value_eqb (fst col) l) (pcolumns m)).

(** [merged[label]]: every column carrying the label; [KeyError] when
    there is none. *)
Definition pivot_getitem (m : matrix) (l : value) : result (list (list cell)) :=
  match columns_named l m with
  | [] => Raise (KeyError l)
  | sel => Ok sel
  end.

(** [series == True]; NaN compares unequal. *)
Definition eq_True (c : cell) : bool :=
  match c with Some true => true | _ => false end.

(** Assign [False] to the cells of a column whose mask entry is set. *)
Fixpoint where_False (mask : list bool) (data : list cell) : list cell :=
  match mask, data with
  | b :: mask', x :: data' => (if b then Some false else x) :: where_False mask' data'
  | _, _ => data
  end.

(** The column a new label gets: [False] in the masked rows, NaN in the
    others. *)
Definition fresh_column (mask : list bool) : list cell :=
  map (fun b : bool => if b then Some false else None) mask.

(** A column after the assignment to the label [l]. *)
Definition assign_column (mask : list bool) (l : value) (col : value * list cell)
    : value * list cell :=
  if value_eqb (fst col) l then (fst col, where_False mask (snd col)) else col.

(** [merged.loc[mask, label] = False] for a boolean series [mask]: an
    existing label is assigned in the masked rows; a new label enlarges
    the matrix by a column. *)
Definition loc_assign_False (m : matrix) (mask : list bool) (l : value) : matrix :=
  if existsb (value_eqb l) (plabels m)
  then Pivot (pindex m) (map (assign_column mask l) (pcolumns m))
  else Pivot (pindex m) (pcolumns m ++ [(l, fresh_column mask)]).

(** A label carried by several columns selects a frame, not a series, and
    [.loc] refuses a two-dimensional row key. *)
Definition loc_setitem_False (m : matrix) (sel : list (list cell)) (l : value)
    : result matrix :=
  match sel with
  | [series] => Ok (loc_assign_False m (map eq_True series) l)
  | _ => Raise (ValueError "Cannot index with multidimensional key")
  end.

(** [row.name] for a row yielded by [iterrows]. *)
Definition row_attr (cols : list string) (row : list value) (name : string)
    : result value :=
  if has_col name cols then Ok (cell_of cols row name)
  else Raise (AttributeError name).

(** The loop body once the row's two labels are known. *)
Definition suppress (trigger to_zero : value) (m : matrix) : result matrix :=
  sel <- pivot_getitem m trigger ;;
  loc_setitem_False m sel to_zero.

(** The loop body on a row of [df_hier], in Python's order of evaluation:
    [row.cc], [merged[...]], [row.to_zero], then the assignment. *)
Definition apply_rule (hcols : list string) (m : matrix) (row : list value)
    : result matrix :=
  trigger <- row_attr hcols row "cc" ;;
  sel <- pivot_getitem m trigger ;;
  to_zero <- row_attr hcols row "to_zero" ;;
  loc_setitem_False m sel to_zero.

(** [for index, row in df_hier.iterrows(): ...] *)
Fixpoint iterrows (hcols : list string) (rows : list (list value)) (m : matrix)
    : result matrix :=
  match rows with
  | [] => Ok m
  | row :: rows' => m' <- apply_rule hcols m row ;; iterrows hcols rows' m'
  end.

Definition cascade (df_hier : frame) (m : matrix) : result matrix :=
  iterrows (fcols df_hier) (frows df_hier) m.

(** ** The files the resolver reads *)

Record files : Type := Files {
  Crosswalks : list (string * frame);        (* os.listdir('Crosswalks'), with contents *)
  ConditionCategory : list (string * frame)  (* the csv files of ConditionCategory/ *)
}.

Fixpoint read_csv (dir : list (string * frame)) (prefix name : string) : result frame :=
  match dir with
  | [] => Raise (FileNotFoundError (prefix ++ name))
  | (n, content) :: dir' => if String.eqb n name then Ok content else read_csv dir' prefix name
  end.

(** ** generate_hccs

    The function returns its result and leaves the caller's frame [df] in
    the state given as the first component. *)

Definition presence (merged : frame) (df_list : frame) : result matrix :=
  groups <- group_rows merged "recip_id" "cc" ;;
  labels <- getattr df_list "cc" ;;
  Ok (astype_bool (reindex_columns (unstack groups) labels 0)).

Definition crosswalk_keys : list string := ["diag_code"; "year"; "version"].

Definition join_crosswalk (df df_map : frame) : result frame :=
  joined <- merge_left df df_map crosswalk_keys ;;
  merged <- drop_columns joined ["claim_date"; "year"] ;;
  filter_notnull merged "cc".

Definition generate_hccs (fs : files) (df : frame) (version : string)
    : frame * result matrix :=
  let crosswalk_list := filter (fun file => contains version (fst file)) (Crosswalks fs) in
  let hierarchy := (version ++ "_rules.csv")%string in
  let cc_list := (version ++ "_labels.csv")%string in
  match
    (df_map <- concat_frames (map snd crosswalk_list) ;;
     df_hier <- read_csv (ConditionCategory fs) "ConditionCategory/" hierarchy ;;
     df_list <- read_csv (ConditionCategory fs) "ConditionCategory/" cc_list ;;
     Ok (df_map, df_hier, df_list))
  with
  | Raise e => (df, Raise e)
  | Ok (df_map, df_hier, df_list) =>
      match (dates <- getitem df "claim_date" ;; dt_year dates) with
      | Raise e => (df, Raise e)
      | Ok years =>
          let df' := setitem df "year" years in
          (df', merged <- join_crosswalk df' df_map ;;
                merged <- presence merged df_list ;;
                cascade df_hier merged)
      end
  end.

(** ** Text: the string operations and patterns of the extractors *)

Definition is_digit (c : ascii) : bool :=
  let n := nat_of_ascii c in (48 <=? n)%nat && (n <=? 57)%nat.

(** [\s] on ASCII text. *)
Definition is_space (c : ascii) : bool :=
  let n := nat_of_ascii c in
  ((9 <=? n)%nat && (n <=? 13)%nat) || ((28 <=? n)%nat && (n <=? 32)%nat).

Definition snoc (s : string) (c : ascii) : string := (s ++ String c "")%string.

Fixpoint drop_chars (n : nat) (s : string) : string :=
  match n, s with
  | S n', String _ s' => drop_chars n' s'
  | _, _ => s
  end.

(** [s.split(sep)] for a one-character separator. *)
Fixpoint split_char (sep : ascii) (s : string) (cur : string) : list string :=
  match s with
  | EmptyString => [cur]
  | String c s' =>
      if Ascii.eqb c sep then cur :: split_char sep s' ""
      else split_char sep s' (snoc cur c)
  end.

(** [re.split('\s+', s)]: a run of whitespace separates two fields, so
    leading or trailing whitespace gives an empty first or last field. *)
Fixpoint split_ws (s : string) (cur : string) (in_ws : bool) : list string :=
  match s with
  | EmptyString => [cur]
  | String c s' =>
      if is_space c then
        if in_ws then split_ws s' cur true else cur :: split_ws s' "" true
      else split_ws s' (snoc cur c) false
  end.

(** [re.split(anchor, s, maxsplit=1)] for a literal, non-empty anchor:
    the text before and after its first occurrence. *)
Fixpoint split_once (anchor : string) (s : string) (before : string)
    : option (string * string) :=
  if String.prefix anchor s then Some (before, drop_chars (String.length anchor) s)
  else match s with
       | EmptyString => None
       | String c s' => split_once anchor s' (snoc before c)
       end.

(** [int(text)] for the year component of a path, a plain decimal
    numeral; any other text is refused here (Python also accepts a sign,
    surrounding blanks and underscores). *)
Fixpoint digits_value (s : string) (acc : Z) : option Z :=
  match s with
  | EmptyString => Some acc
  | String c s' =>
      if is_digit c
      then digits_value s' (10 * acc + Z.of_nat (nat_of_ascii c - 48))
      else None
  end.

Definition int_of_string (s : string) : result Z :=
  match s with
  | EmptyString => Raise (ValueError "invalid literal for int()")
  | _ => match digits_value s 0 with
         | Some z => Ok z
         | None => Raise (ValueError "invalid literal for int()")
         end
  end.

(** The group of the trigger patterns, [<?] then [[0-9]] any number of
    times: an optional [<], then every digit that follows; it matches the
    empty text when neither is there. *)
Fixpoint leading_digits (s : string) : string :=
  match s with
  | String c s' => if is_digit c then String c (leading_digits s') else ""
  | EmptyString => ""
  end.

Definition trigger_group (s : string) : string :=
  match s with
  | String "<" s' => String "<" (leading_digits s')
  | _ => leading_digits s
  end.

(** The marker followed by that group, searched in [logic]: the group at the first
    occurrence of the marker, no match when the marker does not occur. *)
Definition extract_trigger (marker logic : string) : option string :=
  match split_once marker logic "" with
  | Some (_, rest) => Some (trigger_group rest)
  | None => None
  end.

(** The list patterns [[\d]{1,3}(,\s?[\d]{1,3})*] and
    [[\d]{1,3}(\s?,\s?[\d]{1,3})*], matched greedily from a first digit.
    [acc] is the text matched so far, [pending] the separator read since
    the last number, which counts only once a digit follows it. *)
Inductive list_state : Type :=
| InNumber (n : nat)
| WantComma
| AfterComma
| WantDigit.

Fixpoint scan_list (space_before_comma : bool) (st : list_state)
    (acc pending : string) (s : string) : string :=
  match s with
  | EmptyString => acc
  | String c s' =>
      match st with
      | InNumber n =>
          if is_digit c then
            if (n <? 3)%nat
            then scan_list space_before_comma (InNumber (S n)) (snoc acc c) "" s'
            else acc
          else if Ascii.eqb c "," then
            scan_list space_before_comma AfterComma acc "," s'
          else if space_before_comma && is_space c then
            scan_list space_before_comma WantComma acc (String c "") s'
          else acc
      | WantComma =>
          if Ascii.eqb c ","
          then scan_list space_before_comma AfterComma acc (snoc pending c) s'
          else acc
      | AfterComma =>
          if is_digit c then
            scan_list space_before_comma (InNumber 1) (snoc (acc ++ pending) c) "" s'
          else if is_space c then
            scan_list space_before_comma WantDigit acc (snoc pending c) s'
          else acc
      | WantDigit =>
          if is_digit c
          then scan_list space_before_comma (InNumber 1) (snoc (acc ++ pending) c) "" s'
          else acc
      end
  end.

Definition match_list (space_before_comma : bool) (s : string) : option string :=
  match s with
  | String c s' =>
      if is_digit c
      then Some (scan_list space_before_comma (InNumber 1) (String c "") "" s')
      else None
  | EmptyString => None
  end.

(** [(?<=marker)(list)] searched in [logic]: the list at the leftmost
    position that follows the marker and starts with a digit. *)
Fixpoint extract_zeros (marker : string) (space_before_comma : bool) (logic : string)
    : option string :=
  let here :=
    if String.prefix marker logic
    then match_list space_before_comma (drop_chars (String.length marker) logic)
    else None in
  match here with
  | Some found => Some found
  | None => match logic with
            | EmptyString => None
            | String _ logic' => extract_zeros marker space_before_comma logic'
            end
  end.

(** ** The raw files *)

(** [pd.read_table('Raw/' + file, header=None)]: the lines of the file as
    column 0. *)
Fixpoint read_table (raw : list (string * list string)) (file : string)
    : result (list string) :=
  match raw with
  | [] => Raise (FileNotFoundError ("Raw/" ++ file))
  | (name, text) :: raw' =>
      if String.eqb name file
      then match text with
           | [] => Raise (ValueError "No columns to parse from file")
           | _ => Ok text
           end
      else read_table raw' file
  end.

(** [a, b, c = file.split('/')]. *)
Definition split_path (file : string) : result (string * string * string) :=
  match split_char "/" file "" with
  | [a; b; c] => Ok (a, b, c)
  | _ => Raise (ValueError "cannot unpack into three names")
  end.

(** ** extract_hierachy_rules *)

(** A row of the frame [df] of the loop body. *)
Record logic_row : Type := LogicRow {
  logic : option string;
  condition : option string;
  zeros : option string
}.

(** [pd.DataFrame(text.str.split(anchor, 1).tolist(), columns=['junk', 'logic'])]:
    the second field of each line; a table in which no line has two fields
    does not fit the two column names (the exception is an AssertionError
    in older pandas releases). *)
Definition logic_column (anchor : string) (text : list string)
    : result (list (option string)) :=
  let fields := map (fun line => split_once anchor line "") text in
  if existsb (fun f => match f with Some _ => true | None => false end) fields
  then Ok (map (option_map snd) fields)
  else Raise (ValueError "2 columns passed, passed data had 1 columns").

Definition str_extract (pattern : string -> option string) (cellv : option string)
    : option string :=
  match cellv with
  | Some text => pattern text
  | None => None
  end.

Definition extract_row (trigger_marker list_marker : string) (space_before_comma : bool)
    (lg : option string) : logic_row :=
  LogicRow lg
           (str_extract (extract_trigger trigger_marker) lg)
           (str_extract (extract_zeros list_marker space_before_comma) lg).

(** The branch on [cc_version]; [df] keeps its value of the previous file,
    or stays unbound, when neither branch is taken. *)
Definition hierarchy_frame (cc_version : string) (text : list string)
    (df : option (list logic_row)) : result (option (list logic_row)) :=
  if String.eqb cc_version "v12" then
    lgs <- logic_column "if h" text ;;
    Ok (Some (map (extract_row "cc" "i=" false) lgs))
  else if String.eqb cc_version "v21" || String.eqb cc_version "v22" then
    lgs <- logic_column "%SET0(" text ;;
    Ok (Some (map (extract_row "CC=" "%STR(" true) lgs))
  else Ok df.

(** The rows one line of [df] adds to [rules]: none unless both
    [condition] and [zeros] are not null, else one per field of
    [zeros.split(',')], as (to_zero, cc). *)
Definition explode (r : logic_row) : list (list value) :=
  match condition r, zeros r with
  | Some cond, Some zs => map (fun z => [VStr z; VStr cond]) (split_char "," zs "")
  | _, _ => []
  end.

Definition rules_frame (df : list logic_row) : result frame :=
  match filter (fun r => match condition r, zeros r with
                         | Some _, Some _ => true
                         | _, _ => false
                         end) df with
  | [] => Raise (ValueError "No objects to concatenate")
  | smalldf => Ok (Frame ["to_zero"; "cc"] (flat_map explode smalldf))
  end.

(** The loop; the result lists the csv files written to
    [ConditionCategory/], in order, and the exception that ended the loop
    early, if any. *)
Fixpoint extract_hierachy_rules_loop (raw : list (string * list string))
    (version_list : list string) (df : option (list logic_row))
    : list (string * frame) * option exn :=
  match version_list with
  | [] => ([], None)
  | file :: rest =>
      match
        (parts <- split_path file ;;
         let cc_version := snd (fst parts) in
         text <- read_table raw file ;;
         df' <- hierarchy_frame cc_version text df ;;
         match df' with
         | None => Raise (UnboundLocalError "df")
         | Some rows => rules <- rules_frame rows ;;
                        Ok ((cc_version ++ "_rules.csv")%string, rules, df')
         end)
      with
      | Raise e => ([], Some e)
      | Ok (name, rules, df') =>
          let (written, e) := extract_hierachy_rules_loop raw rest df' in
          ((name, rules) :: written, e)
      end
  end.

Definition extract_hierachy_rules (raw : list (string * list string))
    (version_list : list string) : list (string * frame) * option exn :=
  extract_hierachy_rules_loop raw version_list None.

(** The rows a single source line contributes under a version's grammar. *)
Definition line_logic (cc_version line : string) : option string :=
  if String.eqb cc_version "v12" then option_map snd (split_once "if h" line "")
  else option_map snd (split_once "%SET0(" line "").

Definition line_row (cc_version line : string) : logic_row :=
  if String.eqb cc_version "v12"
  then extract_row "cc" "i=" false (line_logic cc_version line)
  else extract_row "CC=" "%STR(" true (line_logic cc_version line).

Definition line_rules (cc_version line : string) : list (list value) :=
  explode (line_row cc_version line).

(** ** format_crosswaks *)

(** The frame of one raw crosswalk file: [icd] and [cc] are the first two
    whitespace-separated fields of each line. *)
Definition field (n : nat) (item : list string) : result value :=
  match nth_error item n with
  | Some f => Ok (VStr f)
  | None => Raise IndexError
  end.

Definition crosswalk_frame (text : list string) (version : Z) (year : string)
    : result frame :=
  let items := map (fun line => split_ws line "" false) text in
  icd <- mapM (field 0) items ;;
  cc <- mapM (field 1) items ;;
  y <- int_of_string year ;;
  Ok (Frame ["icd"; "cc"; "version"; "year"]
            (zip_with (fun i c => [i; c; VInt version; VInt y]) icd cc)).

(** [pd.DataFrame(product(year, icd, version, cc), columns=keys)] for one
    of the literal dictionaries. *)
Definition extra_rows (year : Z) (icd : list string) (cc : Z) : list (list value) :=
  map (fun code => [VInt year; VStr code; VInt 9; VInt cc]) icd.

Definition extra_frame (rows : list (list value)) : frame :=
  Frame ["year"; "icd"; "version"; "cc"] rows.

(** The [if]/[elif] chain that assigns [df_extra]; the variable keeps its
    previous value, or stays unbound, when no branch is taken. *)
Definition supplemental (cc_version : string) (year : Z) (df_extra : option frame)
    : option frame :=
  if String.eqb cc_version "v12" then
    Some (extra_frame (extra_rows year ["40403"; "40413"; "40493"] 80))
  else if String.eqb cc_version "v21" && (year <=? 2015) then
    Some (extra_frame (extra_rows year ["3572"; "36202"] 18
                       ++ extra_rows year ["40401"; "40403"; "40411";
                                           "40413"; "40491"; "40493"] 85))
  else if String.eqb cc_version "v22" && (year <=? 2015) then
    Some (extra_frame (extra_rows year ["36202"] 18
                       ++ extra_rows year ["40403"; "40413"; "40493"] 85))
  else df_extra.

(** [df.append(other)].  The columns are listed in the order of [df];
    pandas releases before 1.0 list them sorted by name instead.  The files
    are read back by column name, so the order plays no role downstream. *)
Definition append_frame (df other : frame) : result frame :=
  concat_frames [df; other].

Definition format_icd9_file (raw : list (string * list string)) (file : string)
    (df_extra : option frame) : result (string * frame * option frame) :=
  parts <- split_path file ;;
  let year := fst (fst parts) in
  let cc_version := snd (fst parts) in
  text <- read_table raw file ;;
  df <- crosswalk_frame text 9 year ;;
  y <- int_of_string year ;;
  let df_extra' := supplemental cc_version y df_extra in
  match df_extra' with
  | None => Raise (UnboundLocalError "df_extra")
  | Some extra =>
      df' <- append_frame df extra ;;
      Ok ((year ++ "_" ++ cc_version ++ "_icd9.csv")%string, df', df_extra')
  end.

Fixpoint format_icd9 (raw : list (string * list string)) (icd9_list : list string)
    (df_extra : option frame) : list (string * frame) * option exn :=
  match icd9_list with
  | [] => ([], None)
  | file :: rest =>
      match format_icd9_file raw file df_extra with
      | Raise e => ([], Some e)
      | Ok (name, df, df_extra') =>
          let (written, e) := format_icd9 raw rest df_extra' in
          ((name, df) :: written, e)
      end
  end.

Definition format_icd10_file (raw : list (string * list string)) (file : string)
    : result (string * frame) :=
  parts <- split_path file ;;
  let year := fst (fst parts) in
  let cc_version := snd (fst parts) in
  text <- read_table raw file ;;
  df <- crosswalk_frame text 10 year ;;
  Ok ((year ++ "_" ++ cc_version ++ "_icd10.csv")%string, df).

Fixpoint format_icd10 (raw : list (string * list string)) (icd10_list : list string)
    : list (string * frame) * option exn :=
  match icd10_list with
  | [] => ([], None)
  | file :: rest =>
      match format_icd10_file raw file with
      | Raise e => ([], Some e)
      | Ok out =>
          let (written, e) := format_icd10 raw rest in
          (out :: written, e)
      end
  end.

(** The csv files written to [Crosswalks/], in order, and the exception
    that ended the run early, if any. *)
Definition format_crosswaks (raw : list (string * list string))
    (icd9_list icd10_list : list string) : list (string * frame) * option exn :=
  match format_icd9 raw icd9_list None with
  | (written9, Some e) => (written9, Some e)
  | (written9, None) =>
      let (written10, e) := format_icd10 raw icd10_list in
      (written9 ++ written10, e)
  end.

(** ** extract_cc_table *)










(** ** Predicates on text and tables *)








(** The versions the extractors have a branch for. *)
Definition supported (cc_version : string) : Prop :=
  cc_version = "v12" \/ cc_version = "v21" \/ cc_version = "v22".

(** What [df_extra] holds between two files: nothing, or a frame with
    the columns of the literal dictionaries. *)
Definition extra_header (df_extra : option frame) : Prop :=
  match df_extra with
  | Some extra => fcols extra = ["year"; "icd"; "version"; "cc"]
  | None => True
  end.




(** ** Fixtures *)

Module Fixture.

(** The diagnosis records of the end-to-end scenario, under the column
    names [generate_hccs] reads; the third record of R1 is the one with a
    direct CC 2 mapping. *)
Definition diagnoses : frame :=
  Frame ["recip_id"; "diag_code"; "version"; "claim_date"]
    [ [VStr "R1"; VStr "E11.9"; VInt 10; VDate 2020 3 1];
      [VStr "R1"; VStr "I10"; VInt 10; VDate 2020 4 1];
      [VStr "R1"; VStr "E11.65"; VInt 10; VDate 2020 5 1];
      [VStr "R2"; VStr "E11.9"; VInt 10; VDate 2020 1 1] ].

Definition labels : frame :=
  Frame ["cc"; "label"]
    [ [VInt 1; VStr "Diabetes"];
      [VInt 2; VStr "Diabetes complications"];
      [VInt 3; VStr "Minor condition"] ].

Definition rules : frame := Frame ["to_zero"; "cc"] [ [VInt 2; VInt 1] ].

(** The crosswalk of the scenario; [code_column] is the name of the
    column that holds the diagnosis code. *)
Definition crosswalk (code_column : string) : frame :=
  Frame [code_column; "cc"; "version"; "year"]
    [ [VStr "E11.9"; VInt 1; VInt 10; VInt 2020];
      [VStr "I10"; VInt 3; VInt 10; VInt 2020];
      [VStr "E11.65"; VInt 2; VInt 10; VInt 2020] ].

Definition tables (code_column : string) (df_hier df_list : frame) : files :=
  Files [("2020_v22_icd10.csv", crosswalk code_column)]
        [("v22_rules.csv", df_hier); ("v22_labels.csv", df_list)].

(** The reference tables as the extractors write them: the crosswalk
    carries the diagnosis code in the column [icd]. *)
Definition extracted : files := tables "icd" rules labels.

(** The same tables with that column called [diag_code]. *)
Definition renamed : files := tables "diag_code" rules labels.


Definition expected : matrix :=
  Pivot [VStr "R1"; VStr "R2"]
        [ (VInt 1, [Some true; Some true]);
          (VInt 2, [Some false; Some false]);
          (VInt 3, [Some true; Some false]) ].

(** The raw listing behind the crosswalk of the scenario. *)
Definition raw_listing : list (string * list string) :=
  [("2020/v22/F2220.txt", ["E11.9 1"; "I10 3"; "E11.65 2"])].

(** A rule table that zeroes a CC the label table does not list. *)
Definition rules_outside : frame := Frame ["to_zero"; "cc"] [ [VInt 99; VInt 1] ].




(** One recipient with CC 1, 2 and 3, and two chained rules: CC 1 zeroes
    CC 2, CC 2 zeroes CC 3. *)
Definition all_three : matrix :=
  Pivot [VStr "R1"]
        [ (VInt 1, [Some true]); (VInt 2, [Some true]); (VInt 3, [Some true]) ].


(** Raw ICD-9 listings of two years, the second without documented
    supplemental entries. *)
Definition raw_icd9 : list (string * list string) :=
  [("2015/v22/F2213L2P.txt", ["25000 19"]);
   ("2016/v21/F211690R_ICD9.txt", ["25000 19"])].

(** A macro call whose [CC=] is followed by no number. *)
Definition no_trigger_line : string := "%SET0(CC=, HIER=%STR(9, 10));".

End Fixture.

(** ** Notions the properties are stated with *)

Unset Implicit Arguments.

Definition column_at (m : matrix) (j : nat) : value * list cell :=
  nth j (pcolumns m) (VNaN, []).

Definition cell_at (m : matrix) (j i : nat) : cell :=
  nth i (snd (column_at m j)) None.

(** [a] is set only where [b] is. *)
Definition mask_le (a b : list bool) : Prop :=
  Forall2 (fun x y => x = true -> y = true) a b.

(** A rule is settled on a matrix when applying it changes nothing. *)
Definition settled (t s : value) (m : matrix) : Prop :=
  exists series,
    columns_named t m = [series]
    /\ In s (plabels m)
    /\ forall col, In col (pcolumns m) -> value_eqb (fst col) s = true ->
                   where_False (map eq_True series) (snd col) = snd col.

(** [m'] comes from [m] by assignments of [False] and enlargement only. *)
Record lowered (m m' : matrix) : Prop := {
  low_index : pindex m' = pindex m;
  low_width : (List.length (pcolumns m) <= List.length (pcolumns m'))%nat;
  low_label : forall j, (j < List.length (pcolumns m))%nat ->
                        fst (column_at m' j) = fst (column_at m j);
  low_True : forall j i, cell_at m' j i = Some true -> cell_at m j i = Some true;
  low_False : forall j i, cell_at m j i = Some false -> cell_at m' j i = Some false
}.

(** Keys in strictly ascending order. *)
Inductive ascending : list value -> Prop :=
| ascending_nil : ascending []
| ascending_cons (k : value) (ks : list value) :
    Forall (fun k' => value_leb k k' = true /\ k <> k') ks ->
    ascending ks -> ascending (k :: ks).

(** The claims about the tables, as predicates *)

(** Two rows of a crosswalk with the same (diag_code, year, version) and
    different CCs. *)



(** An extraction that found text. *)
Definition non_empty (extraction : option string) : bool :=
  match extraction with
  | Some text => negb (String.eqb text "")
  | None => false
  end.

(** Every cell of every column has its row. *)
Definition rectangular (m : matrix) : Prop :=
  forall col, In col (pcolumns m) -> List.length (snd col) = List.length (pindex m).

(** * Properties *)

(** ** Equality of values and labels *)

Lemma value_eqb_eq (a b : value) : value_eqb a b = true <-> a = b.
Proof.
  destruct a, b; simpl; split; intro H; try discriminate; try reflexivity.
  - apply Z.eqb_eq in H. now subst.
  - inversion H. apply Z.eqb_refl.
  - apply String.eqb_eq in H. now subst.
  - inversion H. apply String.eqb_refl.
  - apply andb_prop in H as [H Hd]. apply andb_prop in H as [Hy Hm].
    apply Z.eqb_eq in Hy, Hm, Hd. now subst.
  - inversion H. now rewrite !Z.eqb_refl.
Qed.

Lemma value_eqb_refl (a : value) : value_eqb a a = true.
Proof. now apply value_eqb_eq. Qed.

Lemma value_eqb_neq (a b : value) : value_eqb a b = false <-> a <> b.
Proof.
  split.
  - intros H E. apply value_eqb_eq in E. congruence.
  - intro H. destruct (value_eqb a b) eqn:E; [|reflexivity].
    apply value_eqb_eq in E. contradiction.
Qed.

Lemma has_col_In (name : string) (cols : list string) :
  has_col name cols = true <-> In name cols.
Proof.
  unfold has_col. rewrite existsb_exists. split.
  - intros [c [Hin E]]. apply String.eqb_eq in E. now subst.
  - intro Hin. exists name. split; [assumption | apply String.eqb_refl].
Qed.

Lemma label_In (l : value) (ls : list value) :
  existsb (value_eqb l) ls = true <-> In l ls.
Proof.
  rewrite existsb_exists. split.
  - intros [c [Hin E]]. apply value_eqb_eq in E. now subst.
  - intro Hin. exists l. split; [assumption | apply value_eqb_refl].
Qed.

(** ** Masked assignment on one column *)

Lemma mask_le_refl (a : list bool) : mask_le a a.
Proof. induction a; constructor; auto. Qed.

Lemma where_False_length (mask : list bool) (data : list cell) :
  List.length (where_False mask data) = List.length data.
Proof.
  revert data. induction mask as [|b mask IH]; intros [|x data]; simpl; auto.
Qed.

Lemma where_False_idem (mask : list bool) (data : list cell) :
  where_False mask (where_False mask data) = where_False mask data.
Proof.
  revert data. induction mask as [|b mask IH]; intros [|x data]; simpl; auto.
  rewrite IH. now destruct b.
Qed.

Lemma where_False_comm (a b : list bool) (data : list cell) :
  where_False a (where_False b data) = where_False b (where_False a data).
Proof.
  revert b data. induction a as [|x a IH]; intros [|y b] [|c data]; simpl; auto.
  rewrite IH. now destruct x, y.
Qed.

Lemma where_False_fresh (mask : list bool) :
  where_False mask (fresh_column mask) = fresh_column mask.
Proof.
  induction mask as [|b mask IH]; simpl; auto.
  rewrite IH. now destruct b.
Qed.

Lemma where_False_fixed_le (a b : list bool) (data : list cell) :
  mask_le a b -> where_False b data = data -> where_False a data = data.
Proof.
  intro Hle. revert data.
  induction Hle as [|x y a b Hxy Hle IH]; intros [|c data]; simpl; auto.
  intro H. injection H as Hc Hd. rewrite (IH _ Hd).
  destruct x; [|reflexivity]. rewrite (Hxy eq_refl) in Hc. now rewrite <- Hc.
Qed.

Lemma eq_True_where_False_le (mask : list bool) (data : list cell) :
  mask_le (map eq_True (where_False mask data)) (map eq_True data).
Proof.
  revert data. induction mask as [|b mask IH]; intros [|c data]; simpl;
    try apply mask_le_refl.
  constructor; [|apply IH]. destruct b; simpl; [discriminate | auto].
Qed.

Lemma nth_where_False_True (mask : list bool) (data : list cell) (i : nat) :
  nth i (where_False mask data) None = Some true -> nth i data None = Some true.
Proof.
  revert data i. induction mask as [|b mask IH]; intros [|c data] [|i]; simpl; auto.
  destruct b; [discriminate | auto].
Qed.

Lemma nth_where_False (mask : list bool) (data : list cell) (i : nat) :
  (i < List.length data)%nat ->
  nth i (where_False mask data) None
  = if nth i mask false then Some false else nth i data None.
Proof.
  revert data i. induction mask as [|b mask IH]; intros [|c data] [|i]; simpl;
    intro Hi; try lia; try reflexivity.
  apply IH. lia.
Qed.

Lemma nth_fresh_column (mask : list bool) (i : nat) :
  nth i (fresh_column mask) None <> Some true.
Proof.
  revert i. induction mask as [|b mask IH]; intros [|i]; simpl; try discriminate.
  - now destruct b.
  - apply IH.
Qed.

(** ** One hierarchy step on the matrix *)

Lemma assign_column_fst (mask : list bool) (l : value) (col : value * list cell) :
  fst (assign_column mask l col) = fst col.
Proof. unfold assign_column. now destruct (value_eqb (fst col) l). Qed.

Lemma assign_column_absent (mask : list bool) (l : value)
    (cols : list (value * list cell)) :
  existsb (value_eqb l) (map fst cols) = false ->
  map (assign_column mask l) cols = cols.
Proof.
  induction cols as [|col cols IH]; simpl; [reflexivity|].
  intro H. apply orb_false_elim in H as [H1 H2].
  rewrite (IH H2). unfold assign_column.
  destruct (value_eqb (fst col) l) eqn:E; [|reflexivity].
  apply value_eqb_eq in E. subst l. now rewrite value_eqb_refl in H1.
Qed.

(** The columns after [merged.loc[mask, l] = False], in one form for both
    the assigned and the enlarged case. *)
Lemma loc_assign_False_columns (m : matrix) (mask : list bool) (l : value) :
  pcolumns (loc_assign_False m mask l)
  = map (assign_column mask l) (pcolumns m)
    ++ (if existsb (value_eqb l) (plabels m) then [] else [(l, fresh_column mask)]).
Proof.
  unfold loc_assign_False, plabels.
  destruct (existsb (value_eqb l) (map fst (pcolumns m))) eqn:E; simpl.
  - now rewrite app_nil_r.
  - now rewrite assign_column_absent.
Qed.

Lemma loc_assign_False_index (m : matrix) (mask : list bool) (l : value) :
  pindex (loc_assign_False m mask l) = pindex m.
Proof.
  unfold loc_assign_False. now destruct (existsb (value_eqb l) (plabels m)).
Qed.

Lemma columns_named_In (t : value) (m : matrix) (series : list cell) :
  In series (columns_named t m) -> In t (plabels m).
Proof.
  unfold columns_named, plabels. rewrite in_map_iff.
  intros [col [E Hin]]. apply filter_In in Hin as [Hin Hl].
  apply value_eqb_eq in Hl. subst t. now apply in_map.
Qed.

Lemma filter_assign_column (mask : list bool) (l t : value)
    (cols : list (value * list cell)) :
  filter (fun col => value_eqb (fst col) t) (map (assign_column mask l) cols)
  = map (assign_column mask l) (filter (fun col => value_eqb (fst col) t) cols).
Proof.
  induction cols as [|col cols IH]; simpl; [reflexivity|].
  rewrite assign_column_fst, IH. now destruct (value_eqb (fst col) t).
Qed.

(** The trigger column after a step: itself, or itself assigned when the
    rule zeroes its own trigger. *)
Lemma columns_named_assigned (m : matrix) (mask : list bool) (l t : value)
    (series : list cell) :
  columns_named t m = [series] ->
  columns_named t (loc_assign_False m mask l)
  = [if value_eqb t l then where_False mask series else series].
Proof.
  intro Hsel.
  assert (Ht : In t (plabels m)).
  { apply (columns_named_In t m series). rewrite Hsel. now left. }
  unfold columns_named in *. rewrite loc_assign_False_columns.
  rewrite filter_app, map_app, filter_assign_column.
  assert (Hextra : filter (fun col : value * list cell => value_eqb (fst col) t)
            (if existsb (value_eqb l) (plabels m) then [] else [(l, fresh_column mask)])
          = []).
  { destruct (existsb (value_eqb l) (plabels m)) eqn:E; [reflexivity|]. simpl.
    destruct (value_eqb l t) eqn:Elt; [|reflexivity].
    apply value_eqb_eq in Elt. subst l.
    apply label_In in Ht. congruence. }
  rewrite Hextra, app_nil_r.
  destruct (filter (fun col => value_eqb (fst col) t) (pcolumns m))
    as [|col [|col' rest]] eqn:Ef; simpl in Hsel; try discriminate.
  injection Hsel as Hs. simpl.
  assert (Hc : value_eqb (fst col) t = true).
  { assert (Hin : In col (filter (fun col => value_eqb (fst col) t) (pcolumns m)))
      by (rewrite Ef; now left).
    now apply filter_In in Hin. }
  apply value_eqb_eq in Hc. unfold assign_column. rewrite Hc.
  destruct col as [l0 data]. simpl in *. subst.
  now destruct (value_eqb t l).
Qed.

Lemma suppress_Ok (t s : value) (m m' : matrix) :
  suppress t s m = Ok m' <->
  exists series, columns_named t m = [series]
                 /\ m' = loc_assign_False m (map eq_True series) s.
Proof.
  unfold suppress, pivot_getitem, loc_setitem_False.
  destruct (columns_named t m) as [|series [|series' rest]]; simpl; split;
    try discriminate.
  - intros [x [H _]]. discriminate.
  - intro H. injection H as H. eauto.
  - intros [x [H ->]]. now injection H as ->.
  - intros [x [H _]]. discriminate.
Qed.

Lemma settled_suppress (t s : value) (m : matrix) :
  settled t s m -> suppress t s m = Ok m.
Proof.
  intros [series [Hsel [Hs Hfix]]]. apply suppress_Ok. exists series.
  split; [assumption|].
  unfold loc_assign_False. apply label_In in Hs. rewrite Hs.
  destruct m as [idx cols]. simpl in *. f_equal.
  rewrite <- (map_id cols) at 1. apply map_ext_in.
  intros col Hin. fold (assign_column (map eq_True series) s col).
  unfold assign_column. destruct (value_eqb (fst col) s) eqn:E; [|reflexivity].
  rewrite (Hfix col Hin E). now destruct col.
Qed.

Lemma In_assigned_columns (m : matrix) (mask : list bool) (l : value)
    (col : value * list cell) :
  In col (pcolumns (loc_assign_False m mask l)) ->
  (exists col0, In col0 (pcolumns m) /\ col = assign_column mask l col0)
  \/ (col = (l, fresh_column mask) /\ ~ In l (plabels m)).
Proof.
  rewrite loc_assign_False_columns, in_app_iff, in_map_iff.
  intros [[col0 [E Hin]] | Hin].
  - left. eauto.
  - right. destruct (existsb (value_eqb l) (plabels m)) eqn:E; [contradiction|].
    destruct Hin as [<- | []]. split; [reflexivity|].
    intro Hl. apply label_In in Hl. congruence.
Qed.

Lemma labels_kept (m : matrix) (mask : list bool) (l s : value) :
  In s (plabels m) -> In s (plabels (loc_assign_False m mask l)).
Proof.
  unfold plabels. rewrite loc_assign_False_columns, map_app, in_app_iff, map_map.
  intro H. left. erewrite map_ext; [exact H|]. intro col. apply assign_column_fst.
Qed.

Lemma label_assigned (m : matrix) (mask : list bool) (l : value) :
  In l (plabels (loc_assign_False m mask l)).
Proof.
  destruct (existsb (value_eqb l) (plabels m)) eqn:E.
  - apply labels_kept. now apply label_In.
  - unfold plabels. rewrite loc_assign_False_columns, E, map_app, in_app_iff.
    right. now left.
Qed.

(** After a rule has run it is settled. *)
Lemma suppress_settled (t s : value) (m m1 : matrix) :
  suppress t s m = Ok m1 -> settled t s m1.
Proof.
  intro H. apply suppress_Ok in H as [series [Hsel ->]].
  set (mask := map eq_True series).
  exists (if value_eqb t s then where_False mask series else series).
  split; [now apply columns_named_assigned|].
  split; [apply label_assigned|].
  assert (Hle : mask_le (map eq_True (if value_eqb t s
                                      then where_False mask series else series)) mask).
  { destruct (value_eqb t s); [apply eq_True_where_False_le | apply mask_le_refl]. }
  intros col Hin Hl. apply In_assigned_columns in Hin as [[col0 [Hin ->]] | [-> _]].
  - rewrite assign_column_fst in Hl. unfold assign_column. rewrite Hl. simpl.
    apply (where_False_fixed_le _ _ _ Hle). apply where_False_idem.
  - simpl. apply (where_False_fixed_le _ _ _ Hle). apply where_False_fresh.
Qed.

(** A settled rule stays settled under every later step. *)
Lemma settled_preserved (t s t' s' : value) (m m2 : matrix) :
  settled t s m -> suppress t' s' m = Ok m2 -> settled t s m2.
Proof.
  intros [series [Hsel [Hs Hfix]]] H.
  apply suppress_Ok in H as [series' [Hsel' ->]].
  set (mask' := map eq_True series').
  exists (if value_eqb t s' then where_False mask' series else series).
  split; [now apply columns_named_assigned|].
  split; [now apply labels_kept|].
  assert (Hle : mask_le (map eq_True (if value_eqb t s'
                                      then where_False mask' series else series))
                        (map eq_True series)).
  { destruct (value_eqb t s'); [apply eq_True_where_False_le | apply mask_le_refl]. }
  intros col Hin Hl. apply In_assigned_columns in Hin as [[col0 [Hin ->]] | [-> Hnew]].
  - rewrite assign_column_fst in Hl. pose proof (Hfix col0 Hin Hl) as Hfix0.
    pose proof (where_False_fixed_le _ _ _ Hle Hfix0) as Hfix1.
    unfold assign_column. destruct (value_eqb (fst col0) s'); simpl; [|assumption].
    rewrite where_False_comm. now rewrite Hfix1.
  - simpl in Hl. apply value_eqb_eq in Hl. subst s'. contradiction.
Qed.

(** ** The loop over the rule table *)

Lemma apply_rule_attrs (hcols : list string) (row : list value) (m : matrix)
    (t s : value) :
  row_attr hcols row "cc" = Ok t -> row_attr hcols row "to_zero" = Ok s ->
  apply_rule hcols m row = suppress t s m.
Proof.
  intros Ht Hs. unfold apply_rule, suppress. rewrite Ht. simpl.
  destruct (pivot_getitem m t); simpl; [|reflexivity]. now rewrite Hs.
Qed.

Lemma apply_rule_Ok (hcols : list string) (row : list value) (m m' : matrix) :
  apply_rule hcols m row = Ok m' ->
  exists t s, row_attr hcols row "cc" = Ok t
              /\ row_attr hcols row "to_zero" = Ok s
              /\ suppress t s m = Ok m'.
Proof.
  intro H. unfold apply_rule in H.
  destruct (row_attr hcols row "cc") as [t|] eqn:Ht; simpl in H; [|discriminate].
  destruct (pivot_getitem m t) as [sel|] eqn:Hsel; simpl in H; [|discriminate].
  destruct (row_attr hcols row "to_zero") as [s|] eqn:Hs; simpl in H; [|discriminate].
  exists t, s. repeat split. unfold suppress. now rewrite Hsel.
Qed.

Lemma iterrows_app (hcols : list string) (rs1 rs2 : list (list value)) (m : matrix) :
  iterrows hcols (rs1 ++ rs2) m
  = (m1 <- iterrows hcols rs1 m ;; iterrows hcols rs2 m1).
Proof.
  revert m. induction rs1 as [|row rs1 IH]; intro m; simpl; [reflexivity|].
  destruct (apply_rule hcols m row); simpl; [apply IH | reflexivity].
Qed.

Lemma apply_rule_again (hcols : list string) (row : list value) (m m1 : matrix) :
  apply_rule hcols m row = Ok m1 -> apply_rule hcols m1 row = Ok m1.
Proof.
  intro H. apply apply_rule_Ok in H as [t [s [Ht [Hs H]]]].
  rewrite (apply_rule_attrs _ _ _ _ _ Ht Hs).
  now apply settled_suppress, (suppress_settled _ _ _ _ H).
Qed.

Lemma apply_rule_fixed_kept (hcols : list string) (row row' : list value)
    (m m2 : matrix) :
  apply_rule hcols m row = Ok m -> apply_rule hcols m row' = Ok m2 ->
  apply_rule hcols m2 row = Ok m2.
Proof.
  intros H H'. apply apply_rule_Ok in H as [t [s [Ht [Hs H]]]].
  apply apply_rule_Ok in H' as [t' [s' [_ [_ H']]]].
  rewrite (apply_rule_attrs _ _ _ _ _ Ht Hs).
  apply settled_suppress.
  apply (settled_preserved _ _ _ _ _ _ (suppress_settled _ _ _ _ H) H').
Qed.

Lemma iterrows_settles (hcols : list string) (rows done : list (list value))
    (m m' : matrix) :
  iterrows hcols rows m = Ok m' ->
  (forall row, In row done -> apply_rule hcols m row = Ok m) ->
  forall row, In row (done ++ rows) -> apply_rule hcols m' row = Ok m'.
Proof.
  revert done m. induction rows as [|r rows IH]; intros done m H Hdone; simpl in H.
  - injection H as <-. now rewrite app_nil_r.
  - destruct (apply_rule hcols m r) as [m1|] eqn:Hr; simpl in H; [|discriminate].
    intros row Hin.
    apply (IH (done ++ [r]) m1 H).
    + intros row0 Hin0. apply in_app_iff in Hin0 as [Hin0 | [<- | []]].
      * apply (apply_rule_fixed_kept _ _ _ _ _ (Hdone _ Hin0) Hr).
      * apply (apply_rule_again _ _ _ _ Hr).
    + now rewrite <- app_assoc.
Qed.

Lemma iterrows_fixed (hcols : list string) (rows : list (list value)) (m : matrix) :
  (forall row, In row rows -> apply_rule hcols m row = Ok m) ->
  iterrows hcols rows m = Ok m.
Proof.
  induction rows as [|r rows IH]; intro H; simpl; [reflexivity|].
  rewrite (H r (or_introl eq_refl)). simpl. apply IH.
  intros row Hin. apply H. now right.
Qed.

(** ** Cells by position *)

Lemma nth_Some_lt (data : list cell) (i : nat) (b : bool) :
  nth i data None = Some b -> (i < List.length data)%nat.
Proof.
  intro H. destruct (Nat.lt_ge_cases i (List.length data)) as [Hlt | Hge]; [assumption|].
  rewrite (nth_overflow _ _ Hge) in H. discriminate.
Qed.

Lemma cell_at_Some_lt (m : matrix) (j i : nat) (b : bool) :
  cell_at m j i = Some b -> (j < List.length (pcolumns m))%nat.
Proof.
  unfold cell_at, column_at. intro H.
  destruct (Nat.lt_ge_cases j (List.length (pcolumns m))) as [Hlt | Hge]; [assumption|].
  rewrite (nth_overflow _ _ Hge) in H. simpl in H. now destruct i.
Qed.

Lemma column_at_assigned (m : matrix) (mask : list bool) (l : value) (j : nat) :
  (j < List.length (pcolumns m))%nat ->
  column_at (loc_assign_False m mask l) j = assign_column mask l (column_at m j).
Proof.
  intro Hj. unfold column_at. rewrite loc_assign_False_columns.
  rewrite app_nth1 by (now rewrite length_map).
  rewrite (nth_indep _ _ (assign_column mask l (VNaN, [])))
    by (now rewrite length_map).
  apply map_nth.
Qed.

Lemma column_at_enlarged (m : matrix) (mask : list bool) (l : value) (j : nat) :
  (List.length (pcolumns m) <= j)%nat ->
  column_at (loc_assign_False m mask l) j = (VNaN, [])
  \/ column_at (loc_assign_False m mask l) j = (l, fresh_column mask).
Proof.
  intro Hj. unfold column_at. rewrite loc_assign_False_columns.
  rewrite app_nth2 by (now rewrite length_map). rewrite length_map.
  destruct (existsb (value_eqb l) (plabels m)).
  - left. now destruct (j - List.length (pcolumns m))%nat.
  - destruct (j - List.length (pcolumns m))%nat as [|k]; [now right|].
    left. now destruct k.
Qed.

Lemma lowered_refl (m : matrix) : lowered m m.
Proof. constructor; auto. Qed.

Lemma lowered_trans (m1 m2 m3 : matrix) :
  lowered m1 m2 -> lowered m2 m3 -> lowered m1 m3.
Proof.
  intros [I1 W1 L1 T1 F1] [I2 W2 L2 T2 F2]. constructor.
  - congruence.
  - lia.
  - intros j Hj. rewrite L2 by lia. now apply L1.
  - auto.
  - auto.
Qed.

Lemma loc_assign_False_lowered (m : matrix) (mask : list bool) (l : value) :
  lowered m (loc_assign_False m mask l).
Proof.
  constructor.
  - apply loc_assign_False_index.
  - rewrite loc_assign_False_columns, length_app, length_map. lia.
  - intros j Hj. rewrite column_at_assigned by assumption. apply assign_column_fst.
  - intros j i. unfold cell_at.
    destruct (Nat.lt_ge_cases j (List.length (pcolumns m))) as [Hlt | Hge].
    + rewrite column_at_assigned by assumption. unfold assign_column.
      destruct (value_eqb (fst (column_at m j)) l); simpl; [|auto].
      apply nth_where_False_True.
    + destruct (column_at_enlarged m mask l j Hge) as [-> | ->]; simpl.
      * now destruct i.
      * intro H. now apply nth_fresh_column in H.
  - intros j i H. pose proof (cell_at_Some_lt _ _ _ _ H) as Hj.
    unfold cell_at in *. rewrite column_at_assigned by assumption.
    unfold assign_column.
    destruct (value_eqb (fst (column_at m j)) l); simpl; [|assumption].
    rewrite nth_where_False by (apply (nth_Some_lt _ _ _ H)).
    now destruct (nth i mask false).
Qed.

Lemma suppress_lowered (t s : value) (m m' : matrix) :
  suppress t s m = Ok m' -> lowered m m'.
Proof.
  intro H. apply suppress_Ok in H as [series [_ ->]]. apply loc_assign_False_lowered.
Qed.

Lemma iterrows_lowered (hcols : list string) (rows : list (list value))
    (m m' : matrix) :
  iterrows hcols rows m = Ok m' -> lowered m m'.
Proof.
  revert m. induction rows as [|r rows IH]; intros m H; simpl in H.
  - injection H as <-. apply lowered_refl.
  - destruct (apply_rule hcols m r) as [m1|] eqn:Hr; simpl in H; [|discriminate].
    apply apply_rule_Ok in Hr as [t [s [_ [_ Hr]]]].
    apply (lowered_trans _ _ _ (suppress_lowered _ _ _ _ Hr) (IH _ H)).
Qed.







(** C4. The cascade never sets a cell to True: the matrix it returns has
    the rows and the column labels of the matrix it started from, every
    cell that was False is False, and every cell that is True was True. *)
Theorem C4_cascade_never_sets_True (df_hier : frame) (m m' : matrix) :
  cascade df_hier m = Ok m' ->
  pindex m' = pindex m
  /\ (forall j, (j < List.length (pcolumns m))%nat ->
                fst (column_at m' j) = fst (column_at m j))
  /\ (forall j i, cell_at m j i = Some false -> cell_at m' j i = Some false)
  /\ (forall j i, cell_at m' j i = Some true -> cell_at m j i = Some true).
Proof.
  intro H. apply iterrows_lowered in H. destruct H as [I W L T F]. auto.
Qed.

Lemma C4_cascade_never_sets_True_witness :
  let m' := Pivot [VStr "R1"; VStr "R2"]
                  [ (VInt 1, [Some true; Some false]);
                    (VInt 2, [Some false; Some true]);
                    (VInt 3, [Some false; Some false]) ] in
  cell_at m' 1 0 = Some false /\ cell_at m' 1 1 = Some true
  /\ forall j i, cell_at m' j i = Some true ->
       cell_at (Pivot [VStr "R1"; VStr "R2"]
                      [ (VInt 1, [Some true; Some false]);
                        (VInt 2, [Some true; Some true]);
                        (VInt 3, [Some false; Some false]) ]) j i = Some true.
Proof.
  split; [reflexivity|]. split; [reflexivity|].
  apply (C4_cascade_never_sets_True Fixture.rules
           (Pivot [VStr "R1"; VStr "R2"]
                  [ (VInt 1, [Some true; Some false]);
                    (VInt 2, [Some true; Some true]);
                    (VInt 3, [Some false; Some false]) ])).
  reflexivity.
Defined.

(** C5. Running the whole ordered rule table a second time on the matrix
    the first run returned changes nothing: the second run returns that
    same matrix (and where the first run raises there is no matrix to run
    it on). *)
Theorem C5_cascade_idempotent (df_hier : frame) (m : matrix) :
  (m1 <- cascade df_hier m ;; cascade df_hier m1) = cascade df_hier m.
Proof.
  unfold cascade. destruct (iterrows (fcols df_hier) (frows df_hier) m) as [m'|e] eqn:H;
    simpl; [|reflexivity].
  apply iterrows_fixed. intros row Hin.
  apply (iterrows_settles (fcols df_hier) (frows df_hier) [] m m' H).
  - intros row0 [].
  - exact Hin.
Qed.

(** ** The resolver, step by step *)

Lemma generate_hccs_Ok (fs : files) (df : frame) (version : string)
    (df' : frame) (m : matrix) :
  generate_hccs fs df version = (df', Ok m) ->
  exists df_map df_hier df_list dates years merged pres,
    concat_frames (map snd (filter (fun file => contains version (fst file))
                                   (Crosswalks fs))) = Ok df_map
    /\ read_csv (ConditionCategory fs) "ConditionCategory/"
                (version ++ "_rules.csv") = Ok df_hier
    /\ read_csv (ConditionCategory fs) "ConditionCategory/"
                (version ++ "_labels.csv") = Ok df_list
    /\ getitem df "claim_date" = Ok dates
    /\ dt_year dates = Ok years
    /\ df' = setitem df "year" years
    /\ join_crosswalk df' df_map = Ok merged
    /\ presence merged df_list = Ok pres
    /\ cascade df_hier pres = Ok m.
Proof.
  unfold generate_hccs. intro H.
  destruct (concat_frames _) as [df_map|] eqn:Hmap; simpl in H;
    [|inversion H].
  destruct (read_csv _ _ (version ++ "_rules.csv")) as [df_hier|] eqn:Hhier;
    simpl in H; [|inversion H].
  destruct (read_csv _ _ (version ++ "_labels.csv")) as [df_list|] eqn:Hlist;
    simpl in H; [|inversion H].
  destruct (getitem df "claim_date") as [dates|] eqn:Hdates; simpl in H;
    [|inversion H].
  destruct (dt_year dates) as [years|] eqn:Hyears; simpl in H; [|inversion H].
  injection H as Hdf H. subst df'.
  destruct (join_crosswalk _ df_map) as [merged|] eqn:Hjoin; simpl in H;
    [|discriminate].
  destruct (presence merged df_list) as [pres|] eqn:Hpres; simpl in H;
    [|discriminate].
  exists df_map, df_hier, df_list, dates, years, merged, pres.
  repeat (split; [first [assumption | reflexivity]|]). assumption.
Qed.

Lemma find_column_In {A : Type} (l : value) (cols : list (value * list A))
    (data : list A) :
  find_column l cols = Some data -> exists l', In (l', data) cols.
Proof.
  induction cols as [|[l0 d0] cols IH]; simpl; [discriminate|].
  destruct (value_eqb l0 l).
  - intro H. injection H as <-. exists l0. now left.
  - intro H. destruct (IH H) as [l' Hin]. exists l'. now right.
Qed.

(** The presence matrix has the label table's cc column as its column
    labels, in the table's order, and a cell for every recipient. *)
Lemma presence_shape (merged df_list : frame) (pres : matrix) (labels : list value) :
  presence merged df_list = Ok pres -> getattr df_list "cc" = Ok labels ->
  plabels pres = labels /\ rectangular pres.
Proof.
  unfold presence. intros H Hl.
  destruct (group_rows merged "recip_id" "cc") as [groups|]; simpl in H; [|discriminate].
  rewrite Hl in H. simpl in H. injection H as <-. split.
  - unfold plabels, astype_bool, reindex_columns. simpl.
    rewrite !map_map. simpl. apply map_id.
  - intros col Hin. unfold astype_bool, reindex_columns in Hin. simpl in *.
    rewrite map_map in Hin. apply in_map_iff in Hin as [l [<- _]]. simpl.
    rewrite length_map.
    destruct (find_column l _) as [data|] eqn:Hf; [|apply length_map].
    apply find_column_In in Hf as [l' Hin]. apply in_map_iff in Hin as [c [E _]].
    injection E as _ <-. apply length_map.
Qed.

Lemma row_attr_cell (hcols : list string) (row : list value) (name : string)
    (v : value) :
  row_attr hcols row name = Ok v -> v = cell_of hcols row name.
Proof.
  unfold row_attr. destruct (has_col name hcols); [|discriminate].
  intro H. now injection H.
Qed.

(** A step whose label to zero is a column keeps the labels and the shape. *)
Lemma suppress_within (t s : value) (m m' : matrix) :
  suppress t s m = Ok m' -> In s (plabels m) ->
  plabels m' = plabels m /\ (rectangular m -> rectangular m').
Proof.
  intros H Hs. apply suppress_Ok in H as [series [_ ->]].
  apply label_In in Hs.
  assert (Hcols : pcolumns (loc_assign_False m (map eq_True series) s)
                  = map (assign_column (map eq_True series) s) (pcolumns m)).
  { rewrite loc_assign_False_columns, Hs. apply app_nil_r. }
  split.
  - unfold plabels. rewrite Hcols, map_map. apply map_ext. intro col.
    apply assign_column_fst.
  - intros Hrect col Hin. rewrite Hcols in Hin.
    apply in_map_iff in Hin as [col0 [<- Hin]].
    rewrite loc_assign_False_index, <- (Hrect col0 Hin). unfold assign_column.
    destruct (value_eqb (fst col0) s); [apply where_False_length | reflexivity].
Qed.

Lemma iterrows_within (hcols : list string) (rows : list (list value))
    (m m' : matrix) :
  iterrows hcols rows m = Ok m' ->
  (forall row, In row rows -> In (cell_of hcols row "to_zero") (plabels m)) ->
  plabels m' = plabels m /\ (rectangular m -> rectangular m').
Proof.
  revert m. induction rows as [|r rows IH]; intros m H Hrows; simpl in H.
  - injection H as <-. auto.
  - destruct (apply_rule hcols m r) as [m1|] eqn:Hr; simpl in H; [|discriminate].
    apply apply_rule_Ok in Hr as [t [s [_ [Hs Hr]]]].
    apply row_attr_cell in Hs. subst s.
    destruct (suppress_within _ _ _ _ Hr (Hrows r (or_introl eq_refl))) as [Hl1 Hr1].
    destruct (IH m1 H) as [Hl Hk].
    + intros row Hin. rewrite Hl1. apply Hrows. now right.
    + split; [congruence | auto].
Qed.

(** C3, as the code has it.  When every CC the rule table zeroes is a
    cc of the label table, the matrix the resolver returns has exactly the
    label table's cc column as its column labels, in the table's order,
    and every column has one cell for each recipient row. *)
Theorem C3_columns_are_the_label_table (fs : files) (df df' : frame)
    (version : string) (m : matrix) (df_hier df_list : frame) (labels : list value) :
  generate_hccs fs df version = (df', Ok m) ->
  read_csv (ConditionCategory fs) "ConditionCategory/" (version ++ "_rules.csv")
    = Ok df_hier ->
  read_csv (ConditionCategory fs) "ConditionCategory/" (version ++ "_labels.csv")
    = Ok df_list ->
  getattr df_list "cc" = Ok labels ->
  (forall row, In row (frows df_hier) ->
               In (cell_of (fcols df_hier) row "to_zero") labels) ->
  plabels m = labels /\ rectangular m.
Proof.
  intros H Hhier Hlist Hlabels Hrules.
  apply generate_hccs_Ok in H
    as (df_map & df_hier' & df_list' & dates & years & merged & pres
        & _ & Hhier' & Hlist' & _ & _ & _ & _ & Hpres & Hcascade).
  rewrite Hhier in Hhier'. injection Hhier' as <-.
  rewrite Hlist in Hlist'. injection Hlist' as <-.
  destruct (presence_shape _ _ _ _ Hpres Hlabels) as [Hl Hrect].
  unfold cascade in Hcascade.
  destruct (iterrows_within _ _ _ _ Hcascade) as [Hl' Hrect'].
  - intros row Hin. rewrite Hl. now apply Hrules.
  - split; [congruence | auto].
Qed.

Lemma C3_columns_are_the_label_table_witness :
  plabels Fixture.expected = [VInt 1; VInt 2; VInt 3]
  /\ rectangular Fixture.expected.
Proof.
  apply (C3_columns_are_the_label_table Fixture.renamed Fixture.diagnoses
           (fst (generate_hccs Fixture.renamed Fixture.diagnoses "v22")) "v22"
           Fixture.expected Fixture.rules Fixture.labels [VInt 1; VInt 2; VInt 3]).
  - reflexivity.
  - reflexivity.
  - reflexivity.
  - reflexivity.
  - intros row [<- | []]. simpl. right. now left.
Defined.

(** C3 as stated fails: a rule that zeroes a CC outside the label table
    enlarges the matrix by a column for it. *)
Lemma C3_counterexample :
  getattr Fixture.labels "cc" = Ok [VInt 1; VInt 2; VInt 3]
  /\ exists m,
       snd (generate_hccs (Fixture.tables "diag_code" Fixture.rules_outside Fixture.labels)
                          Fixture.diagnoses "v22") = Ok m
       /\ plabels m = [VInt 1; VInt 2; VInt 3; VInt 99]
       /\ plabels m <> [VInt 1; VInt 2; VInt 3].
Proof.
  split; [reflexivity|]. eexists. split; [vm_compute; reflexivity|].
  split; [reflexivity | discriminate].
Qed.

(** ** The diagnosis input and the crosswalk *)

Lemma union_cols_In (c : string) (cols acc : list string) :
  In c (union_cols acc cols) -> In c acc \/ In c cols.
Proof.
  revert acc. induction cols as [|x cols IH]; intros acc H; simpl in *; [now left|].
  apply IH in H as [H | H]; [|now right; right].
  destruct (has_col x acc); [now left|].
  apply in_app_iff in H as [H | [<- | []]]; [now left | now right; left].
Qed.

Lemma concat_cols_In (c : string) (lst : list (list string)) (acc : list string) :
  In c (fold_left union_cols lst acc) ->
  In c acc \/ exists cols, In cols lst /\ In c cols.
Proof.
  revert acc. induction lst as [|cols lst IH]; intros acc H; simpl in *; [now left|].
  apply IH in H as [H | [cols' [Hin Hc]]].
  - apply union_cols_In in H as [H | H]; [now left|]. right. exists cols. auto.
  - right. exists cols'. auto.
Qed.

Lemma merge_left_Ok_keys (left right merged : frame) (keys : list string) :
  merge_left left right keys = Ok merged ->
  forall k, In k keys -> has_col k (fcols right) = true /\ has_col k (fcols left) = true.
Proof.
  unfold merge_left. intros H k Hk.
  destruct (filter _ keys) as [|k0 rest] eqn:Hf; [|discriminate].
  destruct (has_col k (fcols right) && has_col k (fcols left)) eqn:E.
  - now apply andb_prop in E.
  - assert (Hin : In k (filter (fun k => negb (has_col k (fcols right)
                                               && has_col k (fcols left))) keys)).
    { apply filter_In. split; [assumption|]. now rewrite E. }
    rewrite Hf in Hin. contradiction.
Qed.

(** The resolver returns on no crosswalk that lacks a [diag_code] column. *)
Lemma generate_hccs_needs_diag_code (fs : files) (df : frame) (version : string) :
  (forall file, In file (Crosswalks fs) -> ~ In "diag_code" (fcols (snd file))) ->
  forall m, snd (generate_hccs fs df version) <> Ok m.
Proof.
  intros Hcols m H.
  destruct (generate_hccs fs df version) as [df' r] eqn:Hg. simpl in H. subst r.
  apply generate_hccs_Ok in Hg
    as (df_map & df_hier & df_list & dates & years & merged & pres
        & Hmap & _ & _ & _ & _ & _ & Hjoin & _ & _).
  unfold join_crosswalk in Hjoin.
  destruct (merge_left df' df_map crosswalk_keys) as [joined|] eqn:Hm;
    simpl in Hjoin; [|discriminate].
  destruct (merge_left_Ok_keys _ _ _ _ Hm "diag_code" (or_introl eq_refl)) as [Hr _].
  apply has_col_In in Hr.
  remember (map snd (filter (fun file => contains version (fst file))
                            (Crosswalks fs))) as lst eqn:Hlst.
  unfold concat_frames in Hmap. destruct lst as [|f lst]; [discriminate|].
  injection Hmap as <-.
  change (In "diag_code" (fold_left union_cols (map fcols (f :: lst)) [])) in Hr.
  apply concat_cols_In in Hr as [Hnil | [cols [Hin Hc]]]; [exact Hnil|].
  rewrite Hlst in Hin.
  apply in_map_iff in Hin as [fr [<- Hin]].
  apply in_map_iff in Hin as [file [<- Hin]].
  apply filter_In in Hin as [Hin _]. apply (Hcols file Hin Hc).
Qed.

(** C2, at the fixture, with the tables as the extractors write them.  The
    crosswalk [format_crosswaks] writes carries the diagnosis code in a
    column [icd]; the resolver joins on [diag_code] and raises
    [KeyError('diag_code')] instead of returning the expected matrix.  With
    that one column renamed it returns exactly the expected rows. *)
Theorem C2_end_to_end_on_extracted_tables :
  map (fun file => fcols (snd file))
      (fst (format_crosswaks Fixture.raw_listing [] ["2020/v22/F2220.txt"]))
  = [fcols (Fixture.crosswalk "icd")]
  /\ snd (generate_hccs Fixture.extracted Fixture.diagnoses "v22")
     = Raise (KeyError (VStr "diag_code"))
  /\ snd (generate_hccs Fixture.renamed Fixture.diagnoses "v22")
     = Ok Fixture.expected.
Proof. repeat split; vm_compute; reflexivity. Qed.

(** C6, against the code.  Whenever the resolver returns a matrix, the
    caller's frame has been given a [year] column: a frame that had none
    has one more column after the call and is not the frame passed in. *)
Theorem C6_caller_frame_gains_year (fs : files) (df df' : frame) (version : string)
    (m : matrix) :
  generate_hccs fs df version = (df', Ok m) ->
  has_col "year" (fcols df) = false ->
  fcols df' = fcols df ++ ["year"] /\ df' <> df.
Proof.
  intros H Hyear.
  apply generate_hccs_Ok in H
    as (df_map & df_hier & df_list & dates & years & merged & pres
        & _ & _ & _ & _ & _ & -> & _ & _ & _).
  unfold setitem. rewrite Hyear. simpl. split; [reflexivity|].
  intro E. apply (f_equal fcols) in E. simpl in E.
  apply (f_equal (@List.length string)) in E. rewrite length_app in E. simpl in E. lia.
Qed.

Lemma C6_caller_frame_gains_year_witness :
  fcols (fst (generate_hccs Fixture.renamed Fixture.diagnoses "v22"))
  = ["recip_id"; "diag_code"; "version"; "claim_date"; "year"]
  /\ fst (generate_hccs Fixture.renamed Fixture.diagnoses "v22") <> Fixture.diagnoses.
Proof.
  apply (C6_caller_frame_gains_year Fixture.renamed Fixture.diagnoses
           (fst (generate_hccs Fixture.renamed Fixture.diagnoses "v22")) "v22"
           Fixture.expected).
  - reflexivity.
  - reflexivity.
Defined.







(** ** Empty reference tables *)





(** ** The crosswalk formatter *)

(** Outside the three documented cases the chain assigns nothing, and
    [df_extra] is what the previous file left. *)
Lemma supplemental_kept (cc_version : string) (year : Z) (df_extra : option frame) :
  cc_version <> "v12" ->
  (cc_version = "v21" \/ cc_version = "v22" -> 2015 < year) ->
  supplemental cc_version year df_extra = df_extra.
Proof.
  intros H12 Hyear. unfold supplemental.
  destruct (String.eqb_spec cc_version "v12") as [E | _]; [contradiction|].
  destruct (String.eqb_spec cc_version "v21") as [E | _].
  - assert (Hy : (year <=? 2015) = false) by (apply Z.leb_gt; auto).
    rewrite Hy. simpl. subst. reflexivity.
  - simpl. destruct (String.eqb_spec cc_version "v22") as [E | _]; [|reflexivity].
    assert (Hy : (year <=? 2015) = false) by (apply Z.leb_gt; auto).
    now rewrite Hy.
Qed.

Lemma mapM_length {A B : Type} (f : A -> result B) (xs : list A) (ys : list B) :
  mapM f xs = Ok ys -> List.length ys = List.length xs.
Proof.
  revert ys. induction xs as [|x xs IH]; intros ys H; simpl in H.
  - now injection H as <-.
  - destruct (f x); simpl in H; [|discriminate].
    destruct (mapM f xs) as [ys'|]; simpl in H; [|discriminate].
    injection H as <-. simpl. f_equal. now apply IH.
Qed.

Lemma zip_with_length {A B C : Type} (f : A -> B -> C) (xs : list A) (ys : list B) :
  List.length xs = List.length ys -> List.length (zip_with f xs ys) = List.length xs.
Proof.
  revert ys. induction xs as [|x xs IH]; intros [|y ys] H; simpl in *;
    try discriminate; auto.
Qed.

(** An ICD-10 file is written with one row per line of the listing and
    nothing else. *)
Lemma format_icd10_file_rows (raw : list (string * list string)) (file name : string)
    (df : frame) :
  format_icd10_file raw file = Ok (name, df) ->
  exists text, read_table raw file = Ok text
               /\ List.length (frows df) = List.length text
               /\ fcols df = ["icd"; "cc"; "version"; "year"].
Proof.
  unfold format_icd10_file. intro H.
  destruct (split_path file) as [parts|]; simpl in H; [|discriminate].
  destruct (read_table raw file) as [text|]; simpl in H; [|discriminate].
  unfold crosswalk_frame in H.
  destruct (mapM (field 0) _) as [icd|] eqn:Hicd; simpl in H; [|discriminate].
  destruct (mapM (field 1) _) as [cc|] eqn:Hcc; simpl in H; [|discriminate].
  destruct (int_of_string _) as [y|]; simpl in H; [|discriminate].
  injection H as _ <-. exists text. split; [reflexivity|]. simpl.
  apply mapM_length in Hicd, Hcc. rewrite length_map in Hicd, Hcc.
  split; [|reflexivity]. rewrite zip_with_length; congruence.
Qed.

(** C7, against the code.  For the 2016 listing of v21 the chain assigns
    no supplemental entries, yet the file written for it carries, after its
    own row, the four entries assigned for the 2015 listing of v22 that was
    formatted before it, still tagged 2015; formatted first, the same
    listing ends the run with [UnboundLocalError]. *)
Theorem C7_stale_supplemental_rows :
  supplemental "v21" 2016 None = None
  /\ format_crosswaks Fixture.raw_icd9
       ["2015/v22/F2213L2P.txt"; "2016/v21/F211690R_ICD9.txt"] []
     = ([("2015_v22_icd9.csv",
          Frame ["icd"; "cc"; "version"; "year"]
            [ [VStr "25000"; VStr "19"; VInt 9; VInt 2015];
              [VStr "36202"; VInt 18; VInt 9; VInt 2015];
              [VStr "40403"; VInt 85; VInt 9; VInt 2015];
              [VStr "40413"; VInt 85; VInt 9; VInt 2015];
              [VStr "40493"; VInt 85; VInt 9; VInt 2015] ]);
         ("2016_v21_icd9.csv",
          Frame ["icd"; "cc"; "version"; "year"]
            [ [VStr "25000"; VStr "19"; VInt 9; VInt 2016];
              [VStr "36202"; VInt 18; VInt 9; VInt 2015];
              [VStr "40403"; VInt 85; VInt 9; VInt 2015];
              [VStr "40413"; VInt 85; VInt 9; VInt 2015];
              [VStr "40493"; VInt 85; VInt 9; VInt 2015] ])],
        None)
  /\ format_crosswaks Fixture.raw_icd9 ["2016/v21/F211690R_ICD9.txt"] []
     = ([], Some (UnboundLocalError "df_extra")).
Proof. repeat split; vm_compute; reflexivity. Qed.

(** ** The hierarchy rule extractor *)

Lemma split_char_nonempty (sep : ascii) (s cur : string) : split_char sep s cur <> [].
Proof.
  revert cur. induction s as [|c s IH]; intro cur; simpl; [discriminate|].
  destruct (Ascii.eqb c sep); [discriminate | apply IH].
Qed.

(** A line adds rows exactly when both patterns match in its logic
    fragment, whatever text the trigger group matched. *)
Lemma line_rules_iff (cc_version line : string) :
  line_rules cc_version line <> []
  <-> condition (line_row cc_version line) <> None
      /\ zeros (line_row cc_version line) <> None.
Proof.
  unfold line_rules, explode.
  destruct (condition (line_row cc_version line)) as [cond|];
    destruct (zeros (line_row cc_version line)) as [zs|]; split;
    try (intro H; exfalso; now apply H);
    try (intros [H1 H2]; exfalso; now (apply H1 || apply H2)).
  - intros _. split; discriminate.
  - intros _ H. apply map_eq_nil in H. now apply split_char_nonempty in H.
Qed.



(** C10, against the code.  In a macro call whose [CC=] is followed by
    no number the trigger pattern still matches, with the empty text; the
    line is kept and the rule table written for the file has a row for each
    number of its list, each with an empty trigger. *)
Theorem C10_empty_trigger_contributes :
  condition (line_row "v21" Fixture.no_trigger_line) = Some ""
  /\ non_empty (condition (line_row "v21" Fixture.no_trigger_line)) = false
  /\ line_rules "v21" Fixture.no_trigger_line
     = [ [VStr "9"; VStr ""]; [VStr " 10"; VStr ""] ]
  /\ extract_hierachy_rules [("2015/v21/V20H87H1.txt", [Fixture.no_trigger_line])]
                            ["2015/v21/V20H87H1.txt"]
     = ([("v21_rules.csv",
          Frame ["to_zero"; "cc"] [ [VStr "9"; VStr ""]; [VStr " 10"; VStr ""] ])],
        None).
Proof. repeat split; vm_compute; reflexivity. Qed.

(** * Further properties of the resolver *)

(** ** Records without a crosswalk entry *)












(** ** The presence matrix *)

Lemma In_insert_key (k x : value) (ks : list value) :
  In x (insert_key k ks) <-> x = k \/ In x ks.
Proof.
  induction ks as [|k' ks IH]; simpl.
  - intuition.
  - destruct (value_eqb k k') eqn:E.
    + apply value_eqb_eq in E. subst k'. simpl. intuition.
    + destruct (value_leb k k'); simpl; rewrite ?IH; intuition.
Qed.

Lemma In_sorted_keys (x : value) (ks : list value) :
  In x (sorted_keys ks) <-> In x ks.
Proof.
  induction ks as [|k ks IH]; simpl; [reflexivity|].
  rewrite In_insert_key, IH. intuition.
Qed.

(** *** The order of the keys *)

Lemma string_leb_trans (a b c : string) :
  String.leb a b = true -> String.leb b c = true -> String.leb a c = true.
Proof.
  unfold String.leb. revert b c.
  induction a as [|x a IH]; intros [|y b] [|z c]; simpl; try easy.
  unfold Ascii.compare.
  destruct (N.compare_spec (N_of_ascii x) (N_of_ascii y)) as [Exy | Lxy | Gxy];
    destruct (N.compare_spec (N_of_ascii y) (N_of_ascii z)) as [Eyz | Lyz | Gyz];
    destruct (N.compare_spec (N_of_ascii x) (N_of_ascii z)) as [Exz | Lxz | Gxz];
    try easy; try lia.
  apply IH.
Qed.

Lemma date_leb_iff (y1 m1 d1 y2 m2 d2 : Z) :
  Z.ltb y1 y2 || (Z.eqb y1 y2 && (Z.ltb m1 m2 || (Z.eqb m1 m2 && Z.leb d1 d2))) = true
  <-> y1 < y2 \/ (y1 = y2 /\ (m1 < m2 \/ (m1 = m2 /\ d1 <= d2))).
Proof.
  destruct (Z.ltb_spec y1 y2), (Z.eqb_spec y1 y2), (Z.ltb_spec m1 m2),
    (Z.eqb_spec m1 m2), (Z.leb_spec d1 d2); simpl; split; intro Hle;
    try reflexivity; try discriminate; lia.
Qed.

Lemma value_leb_trans (a b c : value) :
  value_leb a b = true -> value_leb b c = true -> value_leb a c = true.
Proof.
  destruct a, b, c; simpl; try easy.
  - intros H1 H2. apply Z.leb_le in H1, H2. apply Z.leb_le. lia.
  - apply string_leb_trans.
  - rewrite !date_leb_iff. lia.
Qed.

Lemma value_leb_antisym (a b : value) :
  value_leb a b = true -> value_leb b a = true -> a = b.
Proof.
  destruct a, b; simpl; try easy.
  - intros H1 H2. apply Z.leb_le in H1, H2. f_equal. lia.
  - intros H1 H2. f_equal. now apply String.leb_antisym.
  - rewrite !date_leb_iff. intros H1 H2. f_equal; lia.
Qed.

Lemma value_leb_total (a b : value) :
  value_leb a b = false -> value_leb b a = true.
Proof.
  destruct a, b; simpl; try easy.
  - intro H. apply Z.leb_gt in H. apply Z.leb_le. lia.
  - intro H. destruct (String.leb_total s s0) as [H' | H']; congruence.
  - intro H. apply date_leb_iff.
    assert (Hn : ~ (y < y0 \/ (y = y0 /\ (m < m0 \/ (m = m0 /\ d <= d0))))).
    { intro Hle. apply date_leb_iff in Hle. congruence. }
    lia.
Qed.

Lemma ascending_insert_key (k : value) (ks : list value) :
  ascending ks -> ascending (insert_key k ks).
Proof.
  induction 1 as [|k' ks Hbelow Hks IH]; simpl.
  - constructor; constructor.
  - destruct (value_eqb k k') eqn:E; [now constructor|].
    apply value_eqb_neq in E. destruct (value_leb k k') eqn:Hle.
    + constructor; [|now constructor]. constructor; [now split|].
      rewrite Forall_forall in *. intros y Hy. destruct (Hbelow y Hy) as [Hk'y Hne].
      split; [now apply (value_leb_trans k k' y)|].
      intros ->. apply E. now apply value_leb_antisym.
    + constructor; [|assumption]. apply Forall_forall. intros y Hy.
      apply In_insert_key in Hy as [-> | Hy].
      * split; [now apply value_leb_total | congruence].
      * rewrite Forall_forall in Hbelow. now apply Hbelow.
Qed.

Lemma ascending_sorted_keys (ks : list value) : ascending (sorted_keys ks).
Proof.
  induction ks as [|k ks IH]; simpl; [constructor | now apply ascending_insert_key].
Qed.

Lemma ascending_NoDup (ks : list value) : ascending ks -> NoDup ks.
Proof.
  induction 1 as [|k ks Hbelow Hks IH]; constructor; [|assumption].
  intro Hin. rewrite Forall_forall in Hbelow. now destruct (Hbelow k Hin).
Qed.

Lemma find_column_built {A : Type} (l : value) (keys : list value) (f : value -> list A) :
  find_column l (map (fun c => (c, f c)) keys)
  = if existsb (value_eqb l) keys then Some (f l) else None.
Proof.
  induction keys as [|k keys IH]; simpl; [reflexivity|].
  destruct (value_eqb k l) eqn:E.
  - apply value_eqb_eq in E. subst k. now rewrite value_eqb_refl.
  - assert (E' : value_eqb l k = false).
    { apply value_eqb_neq. apply value_eqb_neq in E. congruence. }
    now rewrite E'.
Qed.

Lemma group_size_positive (groups : list (value * value)) (r c : value) :
  negb (group_size groups r c =? 0)
  = existsb (fun p => value_eqb (fst p) r && value_eqb (snd p) c) groups.
Proof.
  unfold group_size. induction groups as [|p groups IH]; simpl; [reflexivity|].
  destruct (value_eqb (fst p) r && value_eqb (snd p) c); simpl; [|assumption].
  destruct (Z.eqb_spec (Z.of_nat (S (List.length
    (filter (fun p0 => value_eqb (fst p0) r && value_eqb (snd p0) c) groups)))) 0);
    [lia | reflexivity].
Qed.

(** X2. The presence matrix built from the joined table has one row for
    each recipient that has a mapped diagnosis, each once and in ascending
    order; its columns are the label table's cc column; and the cell of a
    recipient under a label is True exactly when some joined row carries
    that recipient and that cc, False otherwise, whatever the number of
    such rows. *)
Theorem X2_presence_matrix_cells (merged df_list : frame) (pres : matrix)
    (groups : list (value * value)) (labels : list value) :
  presence merged df_list = Ok pres ->
  group_rows merged "recip_id" "cc" = Ok groups ->
  getattr df_list "cc" = Ok labels ->
  (forall r, In r (pindex pres) <-> exists c, In (r, c) groups)
  /\ ascending (pindex pres)
  /\ NoDup (pindex pres)
  /\ plabels pres = labels
  /\ forall j i,
       (j < List.length labels)%nat -> (i < List.length (pindex pres))%nat ->
       cell_at pres j i
       = Some (existsb (fun p => value_eqb (fst p) (nth i (pindex pres) VNaN)
                                 && value_eqb (snd p) (nth j labels VNaN))
                       groups).
Proof.
  intros Hpres Hgroups Hlabels.
  destruct (presence_shape _ _ _ _ Hpres Hlabels) as [Hl _].
  unfold presence in Hpres. rewrite Hgroups, Hlabels in Hpres. simpl in Hpres.
  injection Hpres as <-.
  assert (Hidx : pindex (astype_bool (reindex_columns (unstack groups) labels 0))
                 = sorted_keys (map fst groups)) by reflexivity.
  rewrite Hidx. repeat split.
  - intro Hin. apply (proj1 (In_sorted_keys _ _)) in Hin.
    apply in_map_iff in Hin as [[r' c] [<- Hin]].
    now exists c.
  - intros [c Hin]. apply In_sorted_keys. apply in_map_iff. now exists (r, c).
  - apply ascending_sorted_keys.
  - apply ascending_NoDup, ascending_sorted_keys.
  - exact Hl.
  - intros j i Hj Hi. unfold cell_at, column_at, astype_bool, reindex_columns.
    cbn [pcolumns pindex unstack]. rewrite map_map.
    set (index := sorted_keys (map fst groups)) in *.
    set (col := fun l : value =>
                  (fst (l, match find_column l
                                   (map (fun c => (c, map (fun r => group_size groups r c)
                                                          index))
                                        (sorted_keys (map snd groups))) with
                           | Some data => data
                           | None => map (fun _ => 0) index
                           end),
                   map (fun n => Some (negb (n =? 0)))
                       (snd (l, match find_column l
                                   (map (fun c => (c, map (fun r => group_size groups r c)
                                                          index))
                                        (sorted_keys (map snd groups))) with
                           | Some data => data
                           | None => map (fun _ => 0) index
                           end)))).
    rewrite (nth_indep _ (VNaN, []) (col VNaN)) by (now rewrite length_map).
    rewrite (map_nth col labels VNaN j). unfold col. cbn [fst snd].
    rewrite find_column_built.
    set (l := nth j labels VNaN).
    destruct (existsb (value_eqb l) (sorted_keys (map snd groups))) eqn:Hfound.
    + rewrite map_map.
      rewrite (nth_indep _ None
                 (Some (negb (group_size groups VNaN l =? 0))))
        by (now rewrite length_map).
      rewrite (map_nth (fun r => Some (negb (group_size groups r l =? 0)))
                       index VNaN i).
      now rewrite group_size_positive.
    + rewrite map_map.
      rewrite (nth_indep _ None (Some (negb (0 =? 0)))) by (now rewrite length_map).
      rewrite (map_nth (fun _ : value => Some (negb (0 =? 0))) index VNaN i).
      simpl. f_equal. symmetry.
      destruct (existsb _ groups) eqn:Hex; [|reflexivity].
      apply existsb_exists in Hex as [p [Hin Hp]].
      apply andb_prop in Hp as [_ Hc]. apply value_eqb_eq in Hc.
      assert (Hl' : In l (sorted_keys (map snd groups))).
      { apply In_sorted_keys. rewrite <- Hc. now apply in_map. }
      apply label_In in Hl'. congruence.
Qed.

Lemma X2_presence_matrix_cells_witness :
  let merged := Frame ["recip_id"; "diag_code"; "version"; "cc"]
                  [ [VStr "R1"; VStr "E11.9"; VInt 10; VInt 1];
                    [VStr "R1"; VStr "I10"; VInt 10; VInt 3];
                    [VStr "R1"; VStr "E11.65"; VInt 10; VInt 2];
                    [VStr "R2"; VStr "E11.9"; VInt 10; VInt 1] ] in
  let pres := Pivot [VStr "R1"; VStr "R2"]
                [ (VInt 1, [Some true; Some true]);
                  (VInt 2, [Some true; Some false]);
                  (VInt 3, [Some true; Some false]) ] in
  presence merged Fixture.labels = Ok pres
  /\ NoDup (pindex pres)
  /\ plabels pres = [VInt 1; VInt 2; VInt 3].
Proof.
  intros merged pres. split; [reflexivity|].
  destruct (X2_presence_matrix_cells merged Fixture.labels pres
              [ (VStr "R1", VInt 1); (VStr "R1", VInt 3); (VStr "R1", VInt 2);
                (VStr "R2", VInt 1) ]
              [VInt 1; VInt 2; VInt 3] eq_refl eq_refl eq_refl)
    as (_ & _ & Hnodup & Hlabels & _).
  split; assumption.
Defined.

(** ** The caller's frame *)

Lemma cell_of_replaced (cols : list string) (row : list value) (name other : string)
    (v : value) :
  other <> name ->
  cell_of cols (replace_cell cols row name v) other = cell_of cols row other.
Proof.
  intro Hne. revert row. induction cols as [|c cols IH]; intros [|x row]; simpl;
    try reflexivity.
  destruct (String.eqb_spec c other) as [-> | _]; [|apply IH].
  destruct (String.eqb_spec other name); [contradiction | reflexivity].
Qed.

Lemma cell_of_appended (cols : list string) (row : list value) (name other : string)
    (v : value) :
  other <> name -> List.length row = List.length cols ->
  cell_of (cols ++ [name]) (row ++ [v]) other = cell_of cols row other.
Proof.
  intro Hne. revert row. induction cols as [|c cols IH]; intros [|x row] Hlen;
    simpl in *; try discriminate.
  - destruct (String.eqb_spec name other); [congruence | reflexivity].
  - destruct (String.eqb c other); [reflexivity | apply IH; lia].
Qed.

Lemma map_zip_with {A B C D : Type} (f : A -> B -> C) (g : C -> D) (h : A -> D)
    (xs : list A) (ys : list B) :
  List.length ys = List.length xs ->
  (forall x y, In x xs -> g (f x y) = h x) ->
  map g (zip_with f xs ys) = map h xs.
Proof.
  revert ys. induction xs as [|x xs IH]; intros [|y ys] Hlen H; simpl in *;
    try discriminate; [reflexivity|].
  f_equal; [apply H; now left | apply IH; [lia | intros; apply H; now right]].
Qed.

Lemma has_col_appended (cols : list string) (name other : string) :
  other <> name -> has_col other (cols ++ [name]) = has_col other cols.
Proof.
  intro Hne. unfold has_col. rewrite existsb_app. simpl.
  destruct (String.eqb_spec other name); [contradiction|]. now rewrite !orb_false_r.
Qed.

(** X3. Apart from its [year] column the frame passed to the resolver is
    left as it was, whether the call returns or raises: it has the same
    number of rows, and every column with another name reads the same
    before and after.  (Every record must have a cell for each column.) *)
Theorem X3_only_the_year_column_changes (fs : files) (df : frame) (version : string) :
  Forall (fun row => List.length row = List.length (fcols df)) (frows df) ->
  List.length (frows (fst (generate_hccs fs df version))) = List.length (frows df)
  /\ forall name, name <> "year" ->
       getitem (fst (generate_hccs fs df version)) name = getitem df name.
Proof.
  intro Hrows. unfold generate_hccs.
  destruct (_ <- concat_frames _ ;; _) as [[[df_map df_hier] df_list]|];
    [|simpl; auto].
  destruct (getitem df "claim_date") as [dates|] eqn:Hdates; simpl; [|auto].
  destruct (dt_year dates) as [years|] eqn:Hyears; simpl; [|auto].
  assert (Hlen : List.length years = List.length (frows df)).
  { apply mapM_length in Hyears. rewrite Hyears. unfold getitem in Hdates.
    destruct (has_col "claim_date" (fcols df)); [|discriminate].
    injection Hdates as <-. apply length_map. }
  rewrite Forall_forall in Hrows.
  unfold setitem. destruct (has_col "year" (fcols df)) eqn:Hyear; simpl; split.
  - rewrite zip_with_length; congruence.
  - intros name Hne. unfold getitem. simpl. destruct (has_col name (fcols df)); [|reflexivity].
    f_equal. apply map_zip_with; [assumption|].
    intros row v _. now apply cell_of_replaced.
  - rewrite zip_with_length; congruence.
  - intros name Hne. unfold getitem. simpl. rewrite has_col_appended by assumption.
    destruct (has_col name (fcols df)); [|reflexivity].
    f_equal. apply map_zip_with; [assumption|].
    intros row v Hin. apply cell_of_appended; [assumption | now apply Hrows].
Qed.

Lemma X3_only_the_year_column_changes_witness :
  List.length (frows (fst (generate_hccs Fixture.renamed Fixture.diagnoses "v22")))
  = List.length (frows Fixture.diagnoses)
  /\ forall name, name <> "year" ->
       getitem (fst (generate_hccs Fixture.renamed Fixture.diagnoses "v22")) name
       = getitem Fixture.diagnoses name.
Proof.
  apply X3_only_the_year_column_changes.
  repeat constructor.
Defined.

(** ** The rule table: repeated, independent and well-formed rules *)

(** X5. A rule row that occurs a second time further down the rule table
    changes nothing: the cascade over the table with the second occurrence
    is the cascade over the table without it, raising included. *)
Theorem X5_repeated_rule_is_harmless (hcols : list string)
    (rs1 rs2 rs3 : list (list value)) (r : list value) (m : matrix) :
  iterrows hcols (rs1 ++ r :: rs2 ++ r :: rs3) m
  = iterrows hcols (rs1 ++ r :: rs2 ++ rs3) m.
Proof.
  replace (rs1 ++ r :: rs2 ++ r :: rs3) with ((rs1 ++ r :: rs2) ++ r :: rs3)
    by (now rewrite <- app_assoc).
  replace (rs1 ++ r :: rs2 ++ rs3) with ((rs1 ++ r :: rs2) ++ rs3)
    by (now rewrite <- app_assoc).
  rewrite (iterrows_app hcols (rs1 ++ r :: rs2) (r :: rs3)).
  rewrite (iterrows_app hcols (rs1 ++ r :: rs2) rs3).
  destruct (iterrows hcols (rs1 ++ r :: rs2) m) as [m'|e] eqn:H; simpl; [|reflexivity].
  assert (Hr : apply_rule hcols m' r = Ok m').
  { apply (iterrows_settles hcols (rs1 ++ r :: rs2) [] m m' H).
    - intros row [].
    - simpl. apply in_app_iff. right. now left. }
  now rewrite Hr.
Qed.

Lemma loc_assign_False_present (m : matrix) (mask : list bool) (l : value) :
  In l (plabels m) ->
  loc_assign_False m mask l = Pivot (pindex m) (map (assign_column mask l) (pcolumns m)).
Proof. intro H. apply label_In in H. unfold loc_assign_False. now rewrite H. Qed.

Lemma assign_column_comm (k1 k2 : list bool) (s1 s2 : value) (col : value * list cell) :
  assign_column k2 s2 (assign_column k1 s1 col)
  = assign_column k1 s1 (assign_column k2 s2 col).
Proof.
  unfold assign_column.
  destruct (value_eqb (fst col) s1) eqn:E1, (value_eqb (fst col) s2) eqn:E2; simpl;
    rewrite ?E1, ?E2; simpl; try reflexivity.
  now rewrite where_False_comm.
Qed.

(** X6. Two rules neither of which zeroes the trigger of the other can be
    applied in either order: on a matrix that has both triggers as single
    columns and both labels to zero as columns, the two orders give the
    same matrix. *)
Theorem X6_independent_rules_commute (t1 s1 t2 s2 : value) (m : matrix)
    (c1 c2 : list cell) :
  columns_named t1 m = [c1] -> columns_named t2 m = [c2] ->
  In s1 (plabels m) -> In s2 (plabels m) ->
  s1 <> t2 -> s2 <> t1 ->
  (m1 <- suppress t1 s1 m ;; suppress t2 s2 m1)
  = (m2 <- suppress t2 s2 m ;; suppress t1 s1 m2).
Proof.
  intros H1 H2 Hs1 Hs2 Hn1 Hn2.
  assert (E1 : suppress t1 s1 m = Ok (loc_assign_False m (map eq_True c1) s1))
    by (apply suppress_Ok; eauto).
  assert (E2 : suppress t2 s2 m = Ok (loc_assign_False m (map eq_True c2) s2))
    by (apply suppress_Ok; eauto).
  rewrite E1, E2. simpl.
  assert (E12 : suppress t2 s2 (loc_assign_False m (map eq_True c1) s1)
                = Ok (loc_assign_False (loc_assign_False m (map eq_True c1) s1)
                                       (map eq_True c2) s2)).
  { apply suppress_Ok. exists c2. split; [|reflexivity].
    rewrite (columns_named_assigned m _ s1 t2 c2 H2).
    assert (E : value_eqb t2 s1 = false) by (apply value_eqb_neq; congruence).
    now rewrite E. }
  assert (E21 : suppress t1 s1 (loc_assign_False m (map eq_True c2) s2)
                = Ok (loc_assign_False (loc_assign_False m (map eq_True c2) s2)
                                       (map eq_True c1) s1)).
  { apply suppress_Ok. exists c1. split; [|reflexivity].
    rewrite (columns_named_assigned m _ s2 t1 c1 H1).
    assert (E : value_eqb t1 s2 = false) by (apply value_eqb_neq; congruence).
    now rewrite E. }
  rewrite E12, E21. f_equal.
  rewrite (loc_assign_False_present (loc_assign_False m (map eq_True c1) s1))
    by (now apply labels_kept).
  rewrite (loc_assign_False_present (loc_assign_False m (map eq_True c2) s2))
    by (now apply labels_kept).
  rewrite !(loc_assign_False_present m) by assumption. simpl. f_equal.
  rewrite !map_map. apply map_ext. intro col. apply assign_column_comm.
Qed.

Lemma X6_independent_rules_commute_witness :
  (m1 <- suppress (VInt 1) (VInt 2) Fixture.all_three ;; suppress (VInt 1) (VInt 3) m1)
  = (m2 <- suppress (VInt 1) (VInt 3) Fixture.all_three ;; suppress (VInt 1) (VInt 2) m2).
Proof.
  apply (X6_independent_rules_commute (VInt 1) (VInt 2) (VInt 1) (VInt 3)
           Fixture.all_three [Some true] [Some true]).
  - reflexivity.
  - reflexivity.
  - simpl. right. now left.
  - simpl. right. right. now left.
  - discriminate.
  - discriminate.
Defined.






(** ** The choice of the crosswalk files *)




(** ** The crosswalk formatter, file by file *)














Lemma crosswalk_frame_Ok (text : list string) (version : Z) (year : string)
    (own : frame) :
  crosswalk_frame text version year = Ok own ->
  exists icd cc y,
    int_of_string year = Ok y
    /\ own = Frame ["icd"; "cc"; "version"; "year"]
                   (zip_with (fun i c => [i; c; VInt version; VInt y]) icd cc).
Proof.
  unfold crosswalk_frame. intro H.
  destruct (mapM (field 0) _) as [icd|]; simpl in H; [|discriminate].
  destruct (mapM (field 1) _) as [cc|]; simpl in H; [|discriminate].
  destruct (int_of_string year) as [y|]; simpl in H; [|discriminate].
  injection H as <-. now exists icd, cc, y.
Qed.





(** ** The hierarchy rule extractor, file by file *)

Lemma hierarchy_frame_rows (cc_version : string) (text : list string)
    (df : option (list logic_row)) (rows : list logic_row) :
  supported cc_version ->
  hierarchy_frame cc_version text df = Ok (Some rows) ->
  rows = map (line_row cc_version) text.
Proof.
  intros Hv Hrows.
  unfold hierarchy_frame, logic_column in Hrows. unfold line_row, line_logic.
  destruct Hv as [-> | [-> | ->]]; simpl in *;
    match type of Hrows with
    | context [existsb ?f ?l] => destruct (existsb f l)
    end; simpl in Hrows; try discriminate;
    injection Hrows as <-; rewrite !map_map; reflexivity.
Qed.

Lemma hierarchy_frame_supported (cc_version : string) (text : list string)
    (df : option (list logic_row)) :
  supported cc_version ->
  (exists rows, hierarchy_frame cc_version text df = Ok (Some rows))
  \/ (exists msg, hierarchy_frame cc_version text df = Raise (ValueError msg)).
Proof.
  intro Hv. unfold hierarchy_frame, logic_column.
  destruct Hv as [-> | [-> | ->]]; simpl;
    match goal with
    | |- context [existsb ?f ?l] => destruct (existsb f l)
    end; simpl; eauto.
Qed.





Lemma not_supported_eqb (cc_version : string) :
  ~ supported cc_version ->
  String.eqb cc_version "v12" = false
  /\ String.eqb cc_version "v21" = false
  /\ String.eqb cc_version "v22" = false.
Proof.
  unfold supported. intro H. repeat split; apply String.eqb_neq; intro E; apply H; auto.
Qed.

(** X16. A raw file whose path names a version without a branch is not
    parsed: the table written under its version is the rule table of the
    file extracted just before it, whatever its own lines say; as the first
    file of the run it ends the run with an UnboundLocalError. *)
Theorem X16_unsupported_version_repeats_previous_rules
    (raw : list (string * list string)) (file1 file2 : string)
    (year1 version1 name1 year2 version2 name2 : string)
    (text2 : list string) (out1 : string) (rules1 : frame) :
  split_path file1 = Ok (year1, version1, name1) ->
  supported version1 ->
  extract_hierachy_rules raw [file1] = ([(out1, rules1)], None) ->
  split_path file2 = Ok (year2, version2, name2) ->
  ~ supported version2 ->
  read_table raw file2 = Ok text2 ->
  extract_hierachy_rules raw [file1; file2]
  = ([(out1, rules1); ((version2 ++ "_rules.csv")%string, rules1)], None)
  /\ extract_hierachy_rules raw [file2] = ([], Some (UnboundLocalError "df")).
Proof.
  intros Hpath1 Hv1 Hrun1 Hpath2 Hv2 Hread2.
  destruct (not_supported_eqb _ Hv2) as (E12 & E21 & E22).
  assert (Hframe : forall df, hierarchy_frame version2 text2 df = Ok df).
  { intro df. unfold hierarchy_frame. now rewrite E12, E21, E22. }
  split.
  - unfold extract_hierachy_rules in *. simpl in *.
    rewrite Hpath1 in *. cbn [bind fst snd] in *.
    destruct (read_table raw file1) as [text1|]; cbn [bind] in *; [|discriminate].
    destruct (hierarchy_frame_supported version1 text1 None Hv1)
      as [[rows Hrows] | [msg Hraise]].
    + rewrite Hrows in *. cbn [bind] in *.
      destruct (rules_frame rows) as [rules|] eqn:Hrules; cbn [bind] in *;
        [|discriminate].
      injection Hrun1 as <- <-.
      rewrite Hpath2. cbn [bind fst snd]. rewrite Hread2. cbn [bind].
      rewrite Hframe. cbn [bind]. rewrite Hrules. reflexivity.
    + rewrite Hraise in Hrun1. discriminate.
  - unfold extract_hierachy_rules. simpl. rewrite Hpath2. cbn [bind fst snd].
    rewrite Hread2. cbn [bind]. rewrite Hframe. reflexivity.
Qed.

Lemma X16_unsupported_version_repeats_previous_rules_witness :
  let raw := [("2015/v21/V20H87H1.txt", ["%SET0(CC=8, HIER=%STR(9, 10));"]);
              ("2019/v23/V23H.txt", ["%SET0(CC=17, HIER=%STR(18));"])] in
  let rules1 := Frame ["to_zero"; "cc"] [ [VStr "9"; VStr "8"]; [VStr " 10"; VStr "8"] ] in
  extract_hierachy_rules raw ["2015/v21/V20H87H1.txt"; "2019/v23/V23H.txt"]
  = ([("v21_rules.csv", rules1); ("v23_rules.csv", rules1)], None)
  /\ extract_hierachy_rules raw ["2019/v23/V23H.txt"] = ([], Some (UnboundLocalError "df")).
Proof.
  intros raw rules1.
  apply (X16_unsupported_version_repeats_previous_rules raw
           "2015/v21/V20H87H1.txt" "2019/v23/V23H.txt"
           "2015" "v21" "V20H87H1.txt" "2019" "v23" "V23H.txt"
           ["%SET0(CC=17, HIER=%STR(18));"] "v21_rules.csv" rules1).
  - reflexivity.
  - right. now left.
  - reflexivity.
  - reflexivity.
  - intros [H | [H | H]]; discriminate H.
  - reflexivity.
Defined.



(** ** From the crosswalk formatter to the resolver *)

Lemma supplemental_header (cc_version : string) (year : Z) (df_extra : option frame) :
  extra_header df_extra -> extra_header (supplemental cc_version year df_extra).
Proof.
  intro H. unfold supplemental.
  destruct (String.eqb cc_version "v12"); [reflexivity|].
  destruct (String.eqb cc_version "v21" && (year <=? 2015)); [reflexivity|].
  destruct (String.eqb cc_version "v22" && (year <=? 2015)); [reflexivity | assumption].
Qed.

Lemma format_icd9_file_header (raw : list (string * list string)) (file : string)
    (df_extra df_extra' : option frame) (name : string) (df : frame) :
  extra_header df_extra ->
  format_icd9_file raw file df_extra = Ok (name, df, df_extra') ->
  fcols df = ["icd"; "cc"; "version"; "year"] /\ extra_header df_extra'.
Proof.
  intros Hextra H. unfold format_icd9_file in H.
  destruct (split_path file) as [parts|]; cbn [bind] in H; [|discriminate].
  destruct (read_table raw file) as [text|]; cbn [bind] in H; [|discriminate].
  destruct (crosswalk_frame text 9 (fst (fst parts))) as [own|] eqn:Hown;
    cbn [bind] in H; [|discriminate].
  destruct (int_of_string (fst (fst parts))) as [y|]; cbn [bind] in H; [|discriminate].
  pose proof (supplemental_header (snd (fst parts)) y df_extra Hextra) as Hnew.
  destruct (supplemental (snd (fst parts)) y df_extra) as [extra|]; [|discriminate].
  apply crosswalk_frame_Ok in Hown as (icd & cc & y' & _ & ->).
  unfold append_frame, concat_frames in H. cbn [bind map fold_left fcols] in H.
  simpl in Hnew. rewrite Hnew in H. injection H as _ <- <-.
  split; [reflexivity | exact Hnew].
Qed.

Lemma format_icd9_header (raw : list (string * list string)) (icd9_list : list string)
    (df_extra : option frame) :
  extra_header df_extra ->
  forall file, In file (fst (format_icd9 raw icd9_list df_extra)) ->
               fcols (snd file) = ["icd"; "cc"; "version"; "year"].
Proof.
  revert df_extra. induction icd9_list as [|f rest IH]; intros df_extra Hextra file Hin;
    simpl in Hin; [contradiction|].
  destruct (format_icd9_file raw f df_extra) as [[[name df] df_extra']|] eqn:Hf;
    [|contradiction].
  destruct (format_icd9_file_header _ _ _ _ _ _ Hextra Hf) as [Hdf Hextra'].
  destruct (format_icd9 raw rest df_extra') as [written e] eqn:Hrest.
  destruct Hin as [<- | Hin]; [assumption|].
  apply (IH df_extra' Hextra'). now rewrite Hrest.
Qed.

Lemma format_icd10_header (raw : list (string * list string)) (icd10_list : list string) :
  forall file, In file (fst (format_icd10 raw icd10_list)) ->
               fcols (snd file) = ["icd"; "cc"; "version"; "year"].
Proof.
  induction icd10_list as [|f rest IH]; intros file Hin; simpl in Hin; [contradiction|].
  destruct (format_icd10_file raw f) as [[name df]|] eqn:Hf; [|contradiction].
  destruct (format_icd10 raw rest) as [written e].
  destruct Hin as [<- | Hin]; [|now apply IH].
  now destruct (format_icd10_file_rows _ _ _ _ Hf) as (text & _ & _ & Hcols).
Qed.

Lemma written_crosswalk_header (raw : list (string * list string))
    (icd9_list icd10_list : list string) (file : string * frame) :
  In file (fst (format_crosswaks raw icd9_list icd10_list)) ->
  fcols (snd file) = ["icd"; "cc"; "version"; "year"].
Proof.
  unfold format_crosswaks. intro Hin.
  pose proof (format_icd9_header raw icd9_list None I) as H9.
  pose proof (format_icd10_header raw icd10_list) as H10.
  destruct (format_icd9 raw icd9_list None) as [written9 [e|]]; simpl in *.
  - now apply H9.
  - destruct (format_icd10 raw icd10_list) as [written10 e]. simpl in *.
    apply in_app_iff in Hin as [Hin | Hin]; [now apply H9 | now apply H10].
Qed.



(** X4. The resolver returns a matrix on no crosswalk directory written by
    the formatter: the files carry the diagnosis code in a column icd,
    the join asks for diag_code, and every call raises. *)
Theorem X4_resolver_raises_on_formatted_crosswalks (raw : list (string * list string))
    (icd9_list icd10_list : list string) (labels_and_rules : list (string * frame))
    (df : frame) (version : string) :
  exists e,
    snd (generate_hccs (Files (fst (format_crosswaks raw icd9_list icd10_list))
                              labels_and_rules)
                       df version)
    = Raise e.
Proof.
  destruct (snd (generate_hccs _ df version)) as [m|e] eqn:H; [exfalso | now exists e].
  revert H. apply generate_hccs_needs_diag_code. simpl. intros file Hin Hcol.
  rewrite (written_crosswalk_header raw icd9_list icd10_list file Hin) in Hcol.
  simpl in Hcol. intuition discriminate.
Qed.

(** ** What the rule table can hold *)














(** * The label extractor *)









(** ** Well-formed label lines *)










(** ** ICD-10 listings *)




